(** * GameOfLife (src/index.js): a shallow embedding and its properties

    The simulation core of [src/index.js] is embedded here: the option
    defaults of the constructor, [restart], [_generateModel] and [_next].
    [_render] and the timer only touch the canvas and the interval handle;
    they never write [this._model] or [this._options] and are left out.

    The model of the World is a JavaScript array of arrays of numbers,
    [this._model[n][k]], with [n] ranging over [options.width] and [k] over
    [options.height].  JavaScript reads outside an array yield [undefined],
    a property read on [undefined] throws a [TypeError], and arithmetic on
    [undefined] yields [NaN]; [_next] runs into all three, so they are part
    of the embedding. *)

From Stdlib Require Import ZArith QArith Qround Lia Lqa String.
From stdpp Require Import base list.

Local Open Scope Z_scope.

(** ** JavaScript values and the operators [_next] applies to them *)

Inductive jsval : Type :=
| JNum (z : Z)      (* an integral number *)
| JNaN
| JUndefined.

Inductive js_error : Type := TypeError.

Inductive result (A : Type) : Type :=
| Ok (a : A)
| Throw (e : js_error).
Arguments Ok {A} a.
Arguments Throw {A} e.

(** Sequencing of statements that may throw: [x ← r; k]. *)
#[global] Instance result_bind : MBind result := fun A B f r =>
  match r with
  | Ok a => f a
  | Throw e => Throw e
  end.

(** [a + b] on numbers; [undefined] converts to [NaN], which is absorbing. *)
Definition js_add (a b : jsval) : jsval :=
  match a, b with
  | JNum x, JNum y => JNum (x + y)
  | _, _ => JNaN
  end.

(** [a < c], [a === c] and [a > c] against a number literal [c]. *)
Definition js_lt (a : jsval) (c : Z) : bool :=
  match a with JNum x => x <? c | _ => false end.

Definition js_seq (a : jsval) (c : Z) : bool :=
  match a with JNum x => x =? c | _ => false end.

Definition js_gt (a : jsval) (c : Z) : bool :=
  match a with JNum x => x >? c | _ => false end.

(** The truthiness test of [if (v)]. *)
Definition js_truthy (a : jsval) : bool :=
  match a with JNum x => negb (x =? 0) | _ => false end.

(** ** Arrays *)

(** The model of the World: an array of columns. *)
Abbreviation Model := (list (list jsval)).

(** [arr[i]] for an integer [i]: [None] stands for [undefined]. *)
Definition js_index {A} (arr : list A) (i : Z) : option A :=
  if i <? 0 then None else arr !! Z.to_nat i.

(** [m[i][j]]: throws when [m[i]] is [undefined]. *)
Definition read2 (m : Model) (i j : Z) : result jsval :=
  match js_index m i with
  | None => Throw TypeError
  | Some col =>
      Ok (match js_index col j with Some v => v | None => JUndefined end)
  end.

(** [col[k] = v]: an assignment past the end extends the array, the holes
    read as [undefined]. *)
Definition js_store (col : list jsval) (k : nat) (v : jsval) : list jsval :=
  if (k <? length col)%nat then <[k := v]> col
  else col ++ replicate (k - length col) JUndefined ++ [v].

(** [m[n][k] = v]: throws when [m[n]] is [undefined]. *)
Definition write2 (m : Model) (n k : nat) (v : jsval) : result Model :=
  match m !! n with
  | None => Throw TypeError
  | Some col => Ok (<[n := js_store col k v]> m)
  end.

(** A [for] loop over the indices in [l], threading the loop state. *)
Fixpoint foldM {S A} (f : S -> A -> result S) (s : S) (l : list A) : result S :=
  match l with
  | [] => Ok s
  | a :: l' => s' ← f s a; foldM f s' l'
  end.

(** ** The random source

    [Math.random()] is a sequence of draws and a cursor into it.  A draw is
    a double, held as the rational it denotes; a product of doubles is the
    exact product rounded to the nearest double ([js_mul]). *)

Record RNG : Type := mkRNG { draws : nat -> Q; cursor : nat }.

Definition Math_random (g : RNG) : Q * RNG :=
  (draws g (cursor g), mkRNG (draws g) (S (cursor g))).

(** [Math.round]: the nearest integer, halves rounded up. *)
Definition Math_round (x : Q) : Z := Qfloor (x + (1 # 2))%Q.

(** *** Products of doubles

    A double is [m * 2^(e - 52)] with a significand [m] below [2^53] and,
    in the normal range, at least [2^52]; below [2^-1022] the exponent
    stays at [-1022].  The product of two doubles is the double nearest to
    the exact product, a tie going to the even significand.  Overflow to
    [Infinity] is out of reach of the products of [_generateModel], which
    lie in [[0, 3)], and is not represented. *)

(** [2^z], for any integer [z]. *)
Definition pow2 (z : Z) : Q :=
  if z <? 0 then 1 # (2 ^ Z.to_pos (- z))%positive else inject_Z (2 ^ z).

(** The integer nearest to [x], a tie going to the even one. *)
Definition round_half_even (x : Q) : Z :=
  let f := Qfloor x in
  match (x - inject_Z f ?= 1 # 2)%Q with
  | Lt => f
  | Gt => f + 1
  | Eq => if Z.even f then f else f + 1
  end.

(** The exponent [e] of [a / b]: [2^e <= a / b < 2^(e + 1)].  The
    difference of the binary logarithms is [e] or [e + 1]. *)
Definition binade (a b : positive) : Z :=
  let s := Z.log2 (Zpos a) - Z.log2 (Zpos b) in
  if Qle_bool (pow2 s) (Zpos a # b) then s else s - 1.

(** The double nearest to [a / b]. *)
Definition round_double_pos (a b : positive) : Q :=
  let e := Z.max (binade a b) (-1022) in
  (inject_Z (round_half_even ((Zpos a # b) * pow2 (52 - e))) * pow2 (e - 52))%Q.

Definition round_double (q : Q) : Q :=
  match Qnum q with
  | Z0 => 0%Q
  | Zpos a => round_double_pos a (Qden q)
  | Zneg a => (- round_double_pos a (Qden q))%Q
  end.

(** [x * y] on doubles. *)
Definition js_mul (x y : Q) : Q := round_double (x * y).

(** The rational [q] is a double. *)
Definition is_double (q : Q) : Prop := (round_double q == q)%Q.

(** ** The engine *)

Record Options : Type := mkOptions {
  width : Z;
  height : Z;
  interval : Z
}.

(** The options object handed to the constructor: a field is [None] when it
    is absent. *)
Record UserOptions : Type := mkUserOptions {
  user_width : option Z;
  user_height : option Z;
  user_interval : option Z
}.

Record GameOfLife : Type := mkGameOfLife {
  _options : Options;
  _model : Model
}.

(** The engine together with the random source it draws from. *)
Record World : Type := mkWorld {
  this : GameOfLife;
  rng : RNG
}.

(** [v || d] on an optional number: absent and [0] are falsy. *)
Definition js_or_default (v : option Z) (d : Z) : Z :=
  match v with
  | Some x => if x =? 0 then d else x
  | None => d
  end.

(** *** [_generateModel] *)

(** One pushed cell:
    [args.randomizePopulation
       ? Math.round(Math.round(Math.random() * 3) === 3 ? Math.random() * 1 : 0)
       : 0]. *)
Definition generate_cell (randomizePopulation : bool) (g : RNG) : jsval * RNG :=
  if randomizePopulation then
    let (r1, g1) := Math_random g in
    if Math_round (js_mul r1 3) =? 3 then
      let (r2, g2) := Math_random g1 in
      (JNum (Math_round (js_mul r2 1)), g2)
    else (JNum (Math_round 0%Q), g1)
  else (JNum 0, g).

(** The inner loop, [kl] pushes onto [innerModel]. *)
Fixpoint generate_inner (randomizePopulation : bool) (kl : nat) (g : RNG)
  : list jsval * RNG :=
  match kl with
  | O => ([], g)
  | S kl' =>
      let (c, g1) := generate_cell randomizePopulation g in
      let (rest, g2) := generate_inner randomizePopulation kl' g1 in
      (c :: rest, g2)
  end.

(** The outer loop, [nl] pushes onto [model]. *)
Fixpoint generate_outer (randomizePopulation : bool) (nl kl : nat) (g : RNG)
  : Model * RNG :=
  match nl with
  | O => ([], g)
  | S nl' =>
      let (col, g1) := generate_inner randomizePopulation kl g in
      let (rest, g2) := generate_outer randomizePopulation nl' kl g1 in
      (col :: rest, g2)
  end.

(** [for (n = 0; n < width; ++n)] runs [Z.to_nat width] times. *)
Definition _generateModel (o : Options) (randomizePopulation : bool) (g : RNG)
  : Model * RNG :=
  generate_outer randomizePopulation (Z.to_nat (width o)) (Z.to_nat (height o)) g.

(** *** [restart] and the constructor *)

Definition restart (w : World) : World :=
  let (m, g) := _generateModel (_options (this w)) true (rng w) in
  mkWorld (mkGameOfLife (_options (this w)) m) g.

Definition new_GameOfLife (options : UserOptions) (g : RNG) : result World :=
  let o := mkOptions (js_or_default (user_width options) 100)
                     (js_or_default (user_height options) 100)
                     (js_or_default (user_interval options) 100) in
  Ok (restart (mkWorld (mkGameOfLife o []) g)).

(** *** [_next] *)

(** The cells [this._model[i][j]] that the neighbour sum of cell [(n, k)]
    reads, branch by branch and in the order of the source.  [!n] holds on a
    loop counter exactly when it is [0].  When no branch fires nothing is
    read and [aliveNeighbours] keeps its initial [0]. *)
Definition neighbour_reads (o : Options) (n k : Z) : list (Z * Z) :=
  if (n =? 0) && (k =? 0) then
    (* Top left corner. *)
    [(n + 1, k - 1); (n + 1, k); (n + 1, k + 1)]
  else if (n =? width o - 1) && (k =? 0) then
    (* Top right corner. *)
    [(n - 1, k); (n - 1, k - 1); (n, k + 1)]
  else if (n =? width o - 1) && (k =? height o) then
    (* Bottom right corner. *)
    [(n - 1, k - 1); (n, k - 1); (n - 1, k)]
  else if (n =? 0) && (k =? height o) then
    (* Bottom left corner. *)
    [(n, k - 1); (n + 1, k - 1); (n + 1, k)]
  else if negb (n =? 0) && negb (k =? 0)
          && (n <? width o - 1) && (k <? height o - 1) then
    (* Everything else. *)
    [(n - 1, k - 1); (n - 1, k); (n - 1, k + 1);
     (n, k - 1); (n, k + 1);
     (n + 1, k - 1); (n + 1, k); (n + 1, k + 1)]
  else [].

(** [acc + this._model[i][j]], one more term of a sum. *)
Definition add_read (m : Model) (acc : jsval) (c : Z * Z) : result jsval :=
  x ← read2 m c.1 c.2; Ok (js_add acc x).

(** The sum of the reads, left to right; [0] when there is none. *)
Definition sum_reads (m : Model) (cs : list (Z * Z)) : result jsval :=
  match cs with
  | [] => Ok (JNum 0)
  | c :: cs' => v ← read2 m c.1 c.2; foldM (add_read m) v cs'
  end.

Definition aliveNeighbours (g : GameOfLife) (n k : nat) : result jsval :=
  sum_reads (_model g) (neighbour_reads (_options g) (Z.of_nat n) (Z.of_nat k)).

(** The rules of the game: [Some v] when [newModel[n][k] = v] is executed,
    [None] when no assignment is. *)
Definition rule (cur aliveN : jsval) : option jsval :=
  if js_truthy cur then
    if js_lt aliveN 2 then Some (JNum 0)
    else if js_seq aliveN 2 || js_seq aliveN 3 then Some (JNum 1)
    else if js_gt aliveN 3 then Some (JNum 0)
    else None
  else if js_seq aliveN 3 then Some (JNum 1)
  else None.

(** The body of the two loops at [(n, k)]. *)
Definition next_cell (g : GameOfLife) (n : nat) (newModel : Model) (k : nat)
  : result Model :=
  aliveN ← aliveNeighbours g n k;
  cur ← read2 (_model g) (Z.of_nat n) (Z.of_nat k);
  match rule cur aliveN with
  | Some v => write2 newModel n k v
  | None => Ok newModel
  end.

(** The loop over [k], bounded by [this._model[n].length]. *)
Definition next_column (g : GameOfLife) (newModel : Model) (n : nat)
  : result Model :=
  match _model g !! n with
  | None => Throw TypeError
  | Some col => foldM (next_cell g n) newModel (seq 0 (length col))
  end.

(** [this._generateModel()] is called without arguments, so
    [args.randomizePopulation] is [undefined], which is falsy. *)
Definition _next (w : World) : result World :=
  let g := this w in
  let (newModel, rng') := _generateModel (_options g) false (rng w) in
  newModel' ← foldM (next_column g) newModel (seq 0 (length (_model g)));
  Ok (mkWorld (mkGameOfLife (_options g) newModel') rng').

(** The world after a call of [_next]: [this._model] is assigned after the
    loops, so a call that throws leaves the engine as it was. *)
Definition step (w : World) : World :=
  match _next w with
  | Ok w' => w'
  | Throw _ => w
  end.

(** Sequences of operations on a constructed engine. *)
Inductive operation : Type := OpRestart | OpNext.

Definition perform (w : World) (op : operation) : World :=
  match op with
  | OpRestart => restart w
  | OpNext => step w
  end.

Definition run (ops : list operation) (w : World) : World :=
  foldl perform w ops.

(** ** Grids and the rule, in the words of the specification *)

(** A grid of [W] columns by [H] rows. *)
Definition has_dims (W H : nat) (m : Model) : Prop :=
  length m = W ∧ Forall (fun col => length col = H) m.

Definition binary (v : jsval) : Prop := v = JNum 0 ∨ v = JNum 1.

(** The model has the dimensions of the options. *)
Definition wf_dims (w : World) : Prop :=
  has_dims (Z.to_nat (width (_options (this w))))
           (Z.to_nat (height (_options (this w)))) (_model (this w)).

(** A grid: dimensions as configured, every cell [0] (dead) or [1] (alive). *)
Definition wf (w : World) : Prop :=
  wf_dims w ∧ Forall (Forall binary) (_model (this w)).

Definition cell (m : Model) (n k : nat) : option jsval :=
  col ← m !! n; col !! k.

Definition in_bounds (m : Model) (i j : Z) : bool :=
  match js_index m i with
  | Some col => match js_index col j with Some _ => true | None => false end
  | None => false
  end.

(** Whether the cell at [(i, j)] is alive; nothing is alive outside the
    grid. *)
Definition is_alive (m : Model) (i j : Z) : bool :=
  match js_index m i with
  | Some col => match js_index col j with Some v => js_truthy v | None => false end
  | None => false
  end.

Definition moore_offsets : list (Z * Z) :=
  [(-1, -1); (-1, 0); (-1, 1); (0, -1); (0, 1); (1, -1); (1, 0); (1, 1)].

(** The number of live cells among the in-bounds Moore neighbours. *)
Definition live_neighbours (m : Model) (n k : Z) : Z :=
  Z.of_nat (length (filter (fun d => is_alive m (n + d.1) (k + d.2) = true)
                           moore_offsets)).

(** The standard rule: a live cell survives on 2 or 3, a dead cell is born
    on exactly 3, everything else is dead. *)
Definition conway (alive : bool) (count : Z) : bool :=
  if alive then (count =? 2) || (count =? 3) else count =? 3.

(** Strictly interior: all eight Moore neighbours are in bounds. *)
Definition interior (o : Options) (n k : Z) : Prop :=
  1 <= n <= width o - 2 ∧ 1 <= k <= height o - 2.

Definition on_boundary (o : Options) (n k : Z) : Prop :=
  n = 0 ∨ k = 0 ∨ n = width o - 1 ∨ k = height o - 1.

(** ** Grids given by a pattern *)

(** The grid of [W] columns by [H] rows whose live cells are the cells of
    the pattern [P]. *)
Definition pattern_model (W H : nat) (P : Z -> Z -> bool) : Model :=
  map (fun n : nat =>
         map (fun k : nat => JNum (Z.b2z (P (Z.of_nat n) (Z.of_nat k)))) (seq 0 H))
      (seq 0 W).

Definition pattern_world (o : Options) (P : Z -> Z -> bool) (g : RNG) : World :=
  mkWorld (mkGameOfLife o
             (pattern_model (Z.to_nat (width o)) (Z.to_nat (height o)) P)) g.

(** The number of cells of the pattern among the eight Moore neighbours. *)
Definition pattern_count (P : Z -> Z -> bool) (n k : Z) : Z :=
  foldr (fun d acc => Z.b2z (P (n + d.1) (k + d.2)) + acc) 0 moore_offsets.

Definition interior_b (o : Options) (n k : Z) : bool :=
  (1 <=? n) && (n <=? width o - 2) && (1 <=? k) && (k <=? height o - 2).

(** The pattern [_next] leaves behind: the standard rule in the interior,
    nothing on the boundary. *)
Definition next_pattern (o : Options) (P : Z -> Z -> bool) (n k : Z) : bool :=
  interior_b o n k && conway (P n k) (pattern_count P n k).

(** The triple of cells in row [r] centred on column [c]. *)
Definition horizontal (c r n k : Z) : bool :=
  (k =? r) && (c - 1 <=? n) && (n <=? c + 1).


(** The 2 by 2 block with corner [(a, b)]. *)
Definition block (a b n k : Z) : bool :=
  (a <=? n) && (n <=? a + 1) && (b <=? k) && (k <=? b + 1).

(** ** Definitions used in the proofs *)

(** The value of the neighbour sum, and the state [newModel[n][k]] ends up
    with: the assigned value, or the [0] of the blank model. *)
Definition aliveN_value (g : GameOfLife) (n k : nat) : jsval :=
  match aliveNeighbours g n k with
  | Ok v => v
  | Throw _ => JNaN
  end.

Definition current (g : GameOfLife) (n k : nat) : jsval :=
  match cell (_model g) n k with
  | Some v => v
  | None => JUndefined
  end.

Definition target (g : GameOfLife) (n k : nat) : jsval :=
  match rule (current g n k) (aliveN_value g n k) with
  | Some v => v
  | None => JNum 0
  end.

(** The loop invariant on entering the body at [(n, k)]: the cells before
    [(n, k)] in loop order hold their target, the others are still [0]. *)
Definition filled (g : GameOfLife) (W H n k : nat) (nm : Model) : Prop :=
  has_dims W H nm ∧
  forall i j : nat, (i < W)%nat -> (j < H)%nat ->
    cell nm i j =
    Some (if (i <? n)%nat || ((i =? n)%nat && (j <? k)%nat)
          then target g i j else JNum 0).

(** The number of live cells among the cells [cs]. *)
Definition alive_sum (m : Model) (cs : list (Z * Z)) : Z :=
  foldr (fun c acc => Z.b2z (is_alive m c.1 c.2) + acc) 0 cs.

(** Every draw of the random source lies in [[0, 1)]. *)
Definition unit_draws (g : RNG) : Prop :=
  forall i : nat, (0 <= draws g i)%Q ∧ (draws g i < 1)%Q.

(** No cell of the grid is alive. *)
Definition no_live_cell (m : Model) : Prop :=
  Forall (Forall (fun v => js_truthy v = false)) m.

(** ** The canvas and [_render]

    The 2D context is a fill style, a current path of rectangles and the
    colour last painted on each pixel ([None] where nothing was painted).
    All coordinates [_render] passes are integers, so a filled rectangle
    covers whole pixels; pixel [(x, y)] is the unit square at [(x, y)]. *)

Record Rect : Type := mkRect { rect_x : Z; rect_y : Z; rect_w : Z; rect_h : Z }.

Record Canvas : Type := mkCanvas {
  fillStyle : string;
  path : list Rect;
  pixels : Z -> Z -> option string
}.

Definition in_rect (r : Rect) (x y : Z) : bool :=
  (rect_x r <=? x) && (x <? rect_x r + rect_w r) &&
  (rect_y r <=? y) && (y <? rect_y r + rect_h r).

(** [context.beginPath()] empties the current path. *)
Definition beginPath (c : Canvas) : Canvas :=
  mkCanvas (fillStyle c) [] (pixels c).

(** [context.fillStyle = colour]. *)
Definition set_fillStyle (colour : string) (c : Canvas) : Canvas :=
  mkCanvas colour (path c) (pixels c).

(** [context.rect(x, y, w, h)] adds a rectangle to the current path. *)
Definition rect (x y w h : Z) (c : Canvas) : Canvas :=
  mkCanvas (fillStyle c) (path c ++ [mkRect x y w h]) (pixels c).

(** [context.fill()] paints the current path in the fill style. *)
Definition fill (c : Canvas) : Canvas :=
  mkCanvas (fillStyle c) (path c)
    (fun x y => if existsb (fun r => in_rect r x y) (path c)
                then Some (fillStyle c) else pixels c x y).

Definition CELL_SIZE_IN_PIXELS : Z := 8.

(** The colour of a cell: [this._model[n][k] ? '#3AC150' : '#ffffff']. *)
Definition cell_colour (v : jsval) : string :=
  if js_truthy v then "#3AC150"%string else "#ffffff"%string.

(** The body of the two loops of [_render] at [(n, k)]. *)
Definition render_cell (g : GameOfLife) (n : nat) (c : Canvas) (k : nat)
  : result Canvas :=
  let c1 := beginPath c in
  v ← read2 (_model g) (Z.of_nat n) (Z.of_nat k);
  let c2 := set_fillStyle (cell_colour v) c1 in
  let c3 := rect (Z.of_nat n * CELL_SIZE_IN_PIXELS) (Z.of_nat k * CELL_SIZE_IN_PIXELS)
                 CELL_SIZE_IN_PIXELS CELL_SIZE_IN_PIXELS c2 in
  Ok (fill c3).

(** The loop over [k], bounded by [this._model[n].length]. *)
Definition render_column (g : GameOfLife) (c : Canvas) (n : nat) : result Canvas :=
  match _model g !! n with
  | None => Throw TypeError
  | Some col => foldM (render_cell g n) c (seq 0 (length col))
  end.

Definition _render (g : GameOfLife) (c : Canvas) : result Canvas :=
  foldM (render_column g) c (seq 0 (length (_model g))).

(** The canvas shows the cells of [m] as squares of 8 by 8 pixels, over the
    area of a grid of [W] columns by [H] rows. *)
Definition shows (c : Canvas) (m : Model) (W H : nat) : Prop :=
  forall x y : Z,
    0 <= x < Z.of_nat W * CELL_SIZE_IN_PIXELS ->
    0 <= y < Z.of_nat H * CELL_SIZE_IN_PIXELS ->
    pixels c x y =
    Some (if is_alive m (x / CELL_SIZE_IN_PIXELS) (y / CELL_SIZE_IN_PIXELS)
          then "#3AC150"%string else "#ffffff"%string).

(** ** Timers and the page

    [window.setInterval] registers a callback under a fresh handle, handles
    being positive integers handed out in increasing order;
    [window.clearInterval] drops the timer of a handle.  The window keeps
    the active timers with their delays. *)

Record Window : Type := mkWindow {
  intervals : list (Z * Z);      (* handle, delay in milliseconds *)
  next_handle : Z
}.

Definition setInterval (delay : Z) (win : Window) : Z * Window :=
  (next_handle win,
   mkWindow (intervals win ++ [(next_handle win, delay)]) (next_handle win + 1)).

Definition clearInterval (handle : Z) (win : Window) : Window :=
  mkWindow (filter (fun t : Z * Z => t.1 <> handle) (intervals win))
           (next_handle win).

(** The engine in its page: [this._cycle] is [None] while it is
    [undefined]. *)
Record Page : Type := mkPage {
  engine : World;
  _cycle : option Z;
  canvas : Canvas;
  window : Window
}.

(** [restart], with the timer and the rendering: an existing cycle is
    cleared, a new model is generated and rendered, a new cycle started. *)
Definition restart_page (p : Page) : result Page :=
  let win1 :=
    match _cycle p with
    | Some handle =>
        if handle =? 0 then window p else clearInterval handle (window p)
    | None => window p
    end in
  let w1 := restart (engine p) in
  c1 ← _render (this w1) (canvas p);
  let (handle, win2) := setInterval (interval (_options (this w1))) win1 in
  Ok (mkPage w1 (Some handle) c1 win2).

(** [_next], with the rendering of the new model. *)
Definition _next_page (p : Page) : result Page :=
  w1 ← _next (engine p);
  c1 ← _render (this w1) (canvas p);
  Ok (mkPage w1 (_cycle p) c1 (window p)).

(** The page after the interval callback has run. *)
Definition tick (p : Page) : Page :=
  match _next_page p with
  | Ok p' => p'
  | Throw _ => p
  end.

Definition blank_canvas : Canvas :=
  mkCanvas "#000000"%string [] (fun _ _ => None).

Definition fresh_window : Window := mkWindow [] 1.

(** The constructor in a page with a blank canvas. *)
Definition new_page (options : UserOptions) (g : RNG) (win : Window) : result Page :=
  let o := mkOptions (js_or_default (user_width options) 100)
                     (js_or_default (user_height options) 100)
                     (js_or_default (user_interval options) 100) in
  restart_page (mkPage (mkWorld (mkGameOfLife o []) g) None blank_canvas win).

Inductive page_operation : Type := PageRestart | PageTick.

(** The page after an operation; [restart] never throws (see
    [restart_page_returns]). *)
Definition page_perform (p : Page) (op : page_operation) : Page :=
  match op with
  | PageRestart => match restart_page p with Ok p' => p' | Throw _ => p end
  | PageTick => tick p
  end.

Definition page_run (ops : list page_operation) (p : Page) : Page :=
  foldl page_perform p ops.

(** The invariant of the render loops on entering the body at [(n, k)]:
    the pixels of the cells before [(n, k)] in loop order show their cell,
    the others are as on the canvas [c0] the rendering started from. *)
Definition painted (g : GameOfLife) (H : nat) (c0 : Canvas) (n k : nat)
  (c : Canvas) : Prop :=
  forall x y : Z,
    pixels c x y =
    if (0 <=? x) && (0 <=? y) && (y / CELL_SIZE_IN_PIXELS <? Z.of_nat H) &&
       ((x / CELL_SIZE_IN_PIXELS <? Z.of_nat n) ||
        ((x / CELL_SIZE_IN_PIXELS =? Z.of_nat n) &&
         (y / CELL_SIZE_IN_PIXELS <? Z.of_nat k)))
    then Some (if is_alive (_model g) (x / CELL_SIZE_IN_PIXELS)
                                      (y / CELL_SIZE_IN_PIXELS)
               then "#3AC150"%string else "#ffffff"%string)
    else pixels c0 x y.

(** The display invariant: the model has the configured dimensions and the
    canvas shows it. *)
Definition in_sync (p : Page) : Prop :=
  wf_dims (engine p) ∧
  shows (canvas p) (_model (this (engine p)))
        (Z.to_nat (width (_options (this (engine p)))))
        (Z.to_nat (height (_options (this (engine p))))).

(** A window as [setInterval] leaves it: handles are handed out from 1
    upwards, and every active timer has a handle already handed out. *)
Definition wf_window (win : Window) : Prop :=
  1 <= next_handle win ∧
  Forall (fun t : Z * Z => t.1 < next_handle win) (intervals win).

(** The timer invariant: besides the timers [others] the window had at
    construction, exactly one timer is active, the engine's cycle, with the
    configured delay. *)
Definition one_cycle (others : list (Z * Z)) (delay : Z) (p : Page) : Prop :=
  exists handle,
    _cycle p = Some handle ∧ 1 <= handle < next_handle (window p) ∧
    intervals (window p) = others ++ [(handle, delay)] ∧
    Forall (fun t : Z * Z => t.1 < handle) others ∧
    interval (_options (this (engine p))) = delay.

(** The engine's share of a page operation. *)
Definition engine_operation (op : page_operation) : operation :=
  match op with
  | PageRestart => OpRestart
  | PageTick => OpNext
  end.

(** ** Concrete worlds *)

Definition rng0 : RNG := mkRNG (fun _ => 0%Q) 0.

(** The world of a [w] by [h] engine holding the given columns. *)
Definition world_of (w h : Z) (columns : list (list Z)) : World :=
  mkWorld (mkGameOfLife (mkOptions w h 100) (map (map JNum) columns)) rng0.

(** ** The blank model *)

Lemma generate_inner_blank kl g :
  generate_inner false kl g = (replicate kl (JNum 0), g).
Proof.
  induction kl as [|kl IH]; simpl; [reflexivity|].
  rewrite IH. reflexivity.
Qed.

Lemma generate_outer_blank nl kl g :
  generate_outer false nl kl g = (replicate nl (replicate kl (JNum 0)), g).
Proof.
  induction nl as [|nl IH]; simpl; [reflexivity|].
  rewrite generate_inner_blank, IH. reflexivity.
Qed.

Lemma _generateModel_blank o g :
  _generateModel o false g =
  (replicate (Z.to_nat (width o)) (replicate (Z.to_nat (height o)) (JNum 0)), g).
Proof. apply generate_outer_blank. Qed.

Lemma has_dims_replicate W H v : has_dims W H (replicate W (replicate H v)).
Proof.
  split; [apply length_replicate|].
  apply Forall_replicate, length_replicate.
Qed.

Lemma cell_replicate W H v (i j : nat) :
  (i < W)%nat -> (j < H)%nat -> cell (replicate W (replicate H v)) i j = Some v.
Proof.
  intros Hi Hj. unfold cell.
  rewrite lookup_replicate_2 by assumption. simpl.
  apply lookup_replicate_2. assumption.
Qed.

(** ** Reading and writing cells *)

Lemma has_dims_lookup W H m (n : nat) col :
  has_dims W H m -> m !! n = Some col -> length col = H.
Proof.
  intros [_ Hall] Hn. rewrite Forall_lookup in Hall. exact (Hall n col Hn).
Qed.

Lemma has_dims_column W H m (n : nat) :
  has_dims W H m -> (n < W)%nat -> exists col, m !! n = Some col ∧ length col = H.
Proof.
  intros Hd Hn. destruct (lookup_lt_is_Some_2 m n) as [col Hcol].
  - destruct Hd as [HW _]. lia.
  - exists col. split; [assumption|]. eapply has_dims_lookup; eassumption.
Qed.

Lemma has_dims_cell W H m (n k : nat) :
  has_dims W H m -> (n < W)%nat -> (k < H)%nat -> exists v, cell m n k = Some v.
Proof.
  intros Hd Hn Hk. destruct (has_dims_column W H m n Hd Hn) as (col & Hcol & Hlen).
  destruct (lookup_lt_is_Some_2 col k) as [v Hv]; [lia|].
  exists v. unfold cell. rewrite Hcol. exact Hv.
Qed.

Lemma js_index_nat {A} (arr : list A) (i : nat) :
  js_index arr (Z.of_nat i) = arr !! i.
Proof.
  unfold js_index. destruct (Z.ltb_spec (Z.of_nat i) 0); [lia|].
  rewrite Nat2Z.id. reflexivity.
Qed.

Lemma read2_cell m (n k : nat) v :
  cell m n k = Some v -> read2 m (Z.of_nat n) (Z.of_nat k) = Ok v.
Proof.
  unfold cell, read2. rewrite js_index_nat.
  destruct (m !! n) as [col|]; simpl; [|discriminate].
  rewrite js_index_nat. intros ->. reflexivity.
Qed.

Lemma read2_returns m i j :
  0 <= i < Z.of_nat (length m) -> exists v, read2 m i j = Ok v.
Proof.
  intros Hi. unfold read2, js_index at 1.
  destruct (Z.ltb_spec i 0); [lia|].
  destruct (lookup_lt_is_Some_2 m (Z.to_nat i)) as [col ->]; [lia|].
  eexists. reflexivity.
Qed.

Lemma write2_cell W H m (n k : nat) v :
  has_dims W H m -> (n < W)%nat -> (k < H)%nat ->
  exists m', write2 m n k v = Ok m' ∧ has_dims W H m' ∧
    forall i j : nat,
      cell m' i j = if decide (i = n ∧ j = k) then Some v else cell m i j.
Proof.
  intros Hd Hn Hk.
  destruct (has_dims_column W H m n Hd Hn) as (col & Hcol & Hlen).
  unfold write2. rewrite Hcol. eexists. split; [reflexivity|].
  assert (Hst : js_store col k v = <[k := v]> col).
  { unfold js_store. destruct (Nat.ltb_spec k (length col)); [reflexivity|lia]. }
  rewrite Hst. destruct Hd as [HW Hall]. split.
  - split; [rewrite length_insert; exact HW|].
    apply Forall_insert; [exact Hall|]. rewrite length_insert. exact Hlen.
  - intros i j. unfold cell. destruct (decide (i = n)) as [->|Hne].
    + rewrite list_lookup_insert_eq by lia. simpl.
      destruct (decide (j = k)) as [->|Hnk].
      * rewrite list_lookup_insert_eq by lia.
        destruct (decide (n = n ∧ k = k)) as [_|Hc]; [reflexivity|].
        exfalso. apply Hc. split; reflexivity.
      * rewrite list_lookup_insert_ne by congruence.
        destruct (decide (n = n ∧ j = k)) as [[_ Hc]|_]; [congruence|].
        rewrite Hcol. reflexivity.
    + rewrite list_lookup_insert_ne by congruence.
      destruct (decide (i = n ∧ j = k)) as [[Hc _]|_]; [congruence|reflexivity].
Qed.

(** ** The neighbour sum returns on every engine that is not one column wide *)

Lemma foldM_add_read_returns m cs : forall v,
  Forall (fun c : Z * Z => 0 <= c.1 < Z.of_nat (length m)) cs ->
  exists v', foldM (add_read m) v cs = Ok v'.
Proof.
  induction cs as [|c cs IH]; intros v Hall; cbn [foldM].
  - eexists. reflexivity.
  - inversion Hall as [|? ? Hc Hcs]; subst.
    destruct (read2_returns m c.1 c.2 Hc) as [x Hx].
    assert (Hstep : add_read m v c = Ok (js_add v x))
      by (unfold add_read; rewrite Hx; reflexivity).
    rewrite Hstep. cbn [mbind result_bind]. apply IH. assumption.
Qed.

Lemma sum_reads_returns m cs :
  Forall (fun c : Z * Z => 0 <= c.1 < Z.of_nat (length m)) cs ->
  exists v, sum_reads m cs = Ok v.
Proof.
  destruct cs as [|c cs]; intros Hall; cbn [sum_reads].
  - eexists. reflexivity.
  - inversion Hall as [|? ? Hc Hcs]; subst.
    destruct (read2_returns m c.1 c.2 Hc) as [x Hx]. rewrite Hx.
    cbn [mbind result_bind]. apply foldM_add_read_returns. assumption.
Qed.

(** Every branch of [neighbour_reads] stays within the columns of the
    model, provided the column [n + 1] of the top left corner exists. *)
Lemma neighbour_reads_columns o (n k : nat) (len : nat) :
  len = Z.to_nat (width o) -> width o <> 1 -> (n < len)%nat ->
  (k < Z.to_nat (height o))%nat ->
  Forall (fun c : Z * Z => 0 <= c.1 < Z.of_nat len)
         (neighbour_reads o (Z.of_nat n) (Z.of_nat k)).
Proof.
  intros -> Hw Hn Hk. unfold neighbour_reads.
  repeat match goal with
  | |- context [Z.eqb ?a ?b] => destruct (Z.eqb_spec a b)
  | |- context [Z.ltb ?a ?b] => destruct (Z.ltb_spec a b)
  end; simpl; repeat constructor; simpl; lia.
Qed.

Lemma aliveNeighbours_returns (w : World) (n k : nat) :
  wf_dims w -> width (_options (this w)) <> 1 ->
  (n < Z.to_nat (width (_options (this w))))%nat ->
  (k < Z.to_nat (height (_options (this w))))%nat ->
  exists v, aliveNeighbours (this w) n k = Ok v.
Proof.
  intros [HW _] Hw Hn Hk. unfold aliveNeighbours.
  apply sum_reads_returns.
  apply neighbour_reads_columns; [exact HW|exact Hw|lia|exact Hk].
Qed.

(** ** The loops of [_next] *)

Section Loops.
Variable g : GameOfLife.
Variables W H : nat.
Hypothesis model_dims : has_dims W H (_model g).
Hypothesis sums_return :
  forall n k : nat, (n < W)%nat -> (k < H)%nat ->
    exists v, aliveNeighbours g n k = Ok v.

Lemma next_cell_filled (n k : nat) nm :
  (n < W)%nat -> (k < H)%nat -> filled g W H n k nm ->
  exists nm', next_cell g n nm k = Ok nm' ∧ filled g W H n (S k) nm'.
Proof.
  intros Hn Hk [Hd Hcells]. unfold next_cell.
  pose proof (sums_return n k Hn Hk) as [a Ha].
  destruct (has_dims_cell W H (_model g) n k model_dims Hn Hk) as [c Hc].
  rewrite Ha, (read2_cell _ _ _ _ Hc). simpl.
  assert (Ht : target g n k = match rule c a with Some v => v | None => JNum 0 end).
  { unfold target, current, aliveN_value. rewrite Ha, Hc. reflexivity. }
  destruct (rule c a) as [v|].
  - destruct (write2_cell W H nm n k v Hd Hn Hk) as (nm' & -> & Hd' & Hget).
    exists nm'. split; [reflexivity|]. split; [exact Hd'|].
    intros i j Hi Hj. rewrite Hget. destruct (decide (i = n ∧ j = k)) as [[-> ->]|Hne].
    + rewrite Ht. replace (n <? n)%nat with false by (symmetry; apply Nat.ltb_ge; lia).
      rewrite Nat.eqb_refl. replace (k <? S k)%nat with true
        by (symmetry; apply Nat.ltb_lt; lia). reflexivity.
    + rewrite (Hcells i j Hi Hj).
      assert (Hb : ((i <? n)%nat || ((i =? n)%nat && (j <? S k)%nat)) =
                   ((i <? n)%nat || ((i =? n)%nat && (j <? k)%nat))).
      { destruct (Nat.ltb_spec i n), (Nat.eqb_spec i n), (Nat.ltb_spec j k),
          (Nat.ltb_spec j (S k)); simpl; try reflexivity; lia. }
      rewrite Hb. reflexivity.
  - exists nm. split; [reflexivity|]. split; [exact Hd|].
    intros i j Hi Hj. rewrite (Hcells i j Hi Hj).
    destruct (Nat.ltb_spec i n); simpl; [reflexivity|].
    destruct (Nat.eqb_spec i n) as [->|_]; simpl; [|reflexivity].
    destruct (Nat.ltb_spec j k), (Nat.ltb_spec j (S k)); try reflexivity; try lia.
    assert (j = k) as -> by lia. rewrite Ht. reflexivity.
Qed.

Lemma inner_loop_filled (n : nat) : forall (len k : nat) nm,
  (n < W)%nat -> (k + len = H)%nat -> filled g W H n k nm ->
  exists nm', foldM (next_cell g n) nm (seq k len) = Ok nm' ∧ filled g W H n H nm'.
Proof.
  induction len as [|len IH]; intros k nm Hn Hlen Hf; simpl.
  - exists nm. split; [reflexivity|].
    assert (Hk : k = H) by lia. rewrite Hk in Hf. exact Hf.
  - destruct (next_cell_filled n k nm Hn ltac:(lia) Hf) as (nm1 & -> & Hf1).
    simpl. apply IH; [assumption|lia|assumption].
Qed.

Lemma filled_column_done (n : nat) nm : filled g W H n H nm -> filled g W H (S n) 0 nm.
Proof.
  intros [Hd Hcells]. split; [exact Hd|].
  intros i j Hi Hj. rewrite (Hcells i j Hi Hj). do 2 f_equal.
  destruct (Nat.ltb_spec i n), (Nat.ltb_spec i (S n)), (Nat.eqb_spec i n),
    (Nat.eqb_spec i (S n)), (Nat.ltb_spec j H), (Nat.ltb_spec j 0);
    simpl; try reflexivity; lia.
Qed.

Lemma next_column_filled (n : nat) nm :
  (n < W)%nat -> filled g W H n 0 nm ->
  exists nm', next_column g nm n = Ok nm' ∧ filled g W H (S n) 0 nm'.
Proof.
  intros Hn Hf. unfold next_column.
  destruct (has_dims_column W H (_model g) n model_dims Hn) as (col & -> & Hlen).
  destruct (inner_loop_filled n (length col) 0 nm Hn ltac:(simpl; exact Hlen) Hf)
    as (nm' & -> & Hf').
  exists nm'. split; [reflexivity|]. apply filled_column_done. exact Hf'.
Qed.

Lemma outer_loop_filled : forall (len n : nat) nm,
  (n + len = W)%nat -> filled g W H n 0 nm ->
  exists nm', foldM (next_column g) nm (seq n len) = Ok nm' ∧ filled g W H W 0 nm'.
Proof.
  induction len as [|len IH]; intros n nm Hlen Hf; simpl.
  - exists nm. split; [reflexivity|].
    assert (Hn : n = W) by lia. rewrite Hn in Hf. exact Hf.
  - destruct (next_column_filled n nm ltac:(lia) Hf) as (nm1 & -> & Hf1).
    simpl. apply IH; [lia|assumption].
Qed.

Lemma blank_filled : filled g W H 0 0 (replicate W (replicate H (JNum 0))).
Proof.
  split; [apply has_dims_replicate|].
  intros i j Hi Hj. rewrite cell_replicate by assumption.
  replace (j <? 0)%nat with false by (symmetry; apply Nat.ltb_ge; lia).
  rewrite andb_false_r. reflexivity.
Qed.
End Loops.

(** ** What [_next] returns *)

Lemma rule_binary cur a v : rule cur a = Some v -> binary v.
Proof.
  unfold rule, binary.
  destruct (js_truthy cur), (js_lt a 2), (js_seq a 2), (js_seq a 3), (js_gt a 3);
    simpl; intros [= <-]; auto.
Qed.

Lemma target_binary g n k : binary (target g n k).
Proof.
  unfold target. destruct (rule _ _) as [v|] eqn:Hr.
  - eapply rule_binary, Hr.
  - left. reflexivity.
Qed.

(** On an engine whose model has the configured dimensions and whose every
    neighbour sum returns, [_next] returns, keeps options and random source,
    and the new model holds [target] in every cell. *)
Lemma _next_when_sums_return (w : World) :
  wf_dims w ->
  (forall n k : nat,
     (n < Z.to_nat (width (_options (this w))))%nat ->
     (k < Z.to_nat (height (_options (this w))))%nat ->
     exists v, aliveNeighbours (this w) n k = Ok v) ->
  exists nm,
    _next w = Ok (mkWorld (mkGameOfLife (_options (this w)) nm) (rng w)) ∧
    has_dims (Z.to_nat (width (_options (this w))))
             (Z.to_nat (height (_options (this w)))) nm ∧
    forall n k : nat,
      (n < Z.to_nat (width (_options (this w))))%nat ->
      (k < Z.to_nat (height (_options (this w))))%nat ->
      cell nm n k = Some (target (this w) n k).
Proof.
  intros Hd Hsums. unfold _next.
  rewrite _generateModel_blank.
  set (W := Z.to_nat (width (_options (this w)))) in *.
  set (H := Z.to_nat (height (_options (this w)))) in *.
  assert (HW : length (_model (this w)) = W) by apply Hd.
  rewrite HW.
  destruct (outer_loop_filled (this w) W H Hd Hsums W 0%nat _ ltac:(lia)
              (blank_filled (this w) W H)) as (nm & -> & Hdn & Hcells).
  exists nm. split; [reflexivity|]. split; [exact Hdn|].
  intros n k Hn Hk. rewrite (Hcells n k Hn Hk).
  replace (n <? W)%nat with true by (symmetry; apply Nat.ltb_lt; lia).
  reflexivity.
Qed.

Lemma _next_returns (w : World) :
  wf_dims w -> width (_options (this w)) <> 1 ->
  exists nm,
    _next w = Ok (mkWorld (mkGameOfLife (_options (this w)) nm) (rng w)) ∧
    has_dims (Z.to_nat (width (_options (this w))))
             (Z.to_nat (height (_options (this w)))) nm ∧
    forall n k : nat,
      (n < Z.to_nat (width (_options (this w))))%nat ->
      (k < Z.to_nat (height (_options (this w))))%nat ->
      cell nm n k = Some (target (this w) n k).
Proof.
  intros Hd Hw. apply _next_when_sums_return; [exact Hd|].
  intros n k Hn Hk. apply aliveNeighbours_returns; assumption.
Qed.

(** On a grid exactly one column wide with at least one row, the top left
    branch reads the missing column [this._model[1]] and [_next] throws. *)
Lemma neighbour_reads_top_left o :
  neighbour_reads o 0 0 = [(1, -1); (1, 0); (1, 1)].
Proof. reflexivity. Qed.

Lemma next_cell_top_left_throws g nm :
  length (_model g) = 1%nat -> next_cell g 0 nm 0 = Throw TypeError.
Proof.
  intros Hlen. unfold next_cell, aliveNeighbours.
  change (Z.of_nat 0) with 0. rewrite neighbour_reads_top_left.
  assert (Hread : read2 (_model g) 1 (-1) = Throw TypeError).
  { unfold read2, js_index. change (1 <? 0) with false. cbn iota.
    change (Z.to_nat 1) with 1%nat.
    rewrite (lookup_ge_None_2 (_model g) 1) by lia. reflexivity. }
  cbn [sum_reads fst snd]. rewrite Hread. reflexivity.
Qed.

Lemma _next_throws_one_column (w : World) :
  wf_dims w -> width (_options (this w)) = 1 -> 1 <= height (_options (this w)) ->
  _next w = Throw TypeError.
Proof.
  intros [HW Hall] Hw Hh. unfold _next.
  rewrite _generateModel_blank, HW, Hw. change (Z.to_nat 1) with 1%nat.
  cbn [seq foldM].
  rewrite Hw in HW. change (Z.to_nat 1) with 1%nat in HW.
  unfold next_column.
  destruct (lookup_lt_is_Some_2 (_model (this w)) 0) as [col Hcol]; [lia|].
  rewrite Hcol.
  assert (Hlen : length col = Z.to_nat (height (_options (this w)))).
  { rewrite Forall_lookup in Hall. exact (Hall _ _ Hcol). }
  destruct (length col) as [|len]; [lia|].
  cbn [seq foldM]. rewrite next_cell_top_left_throws by exact HW. reflexivity.
Qed.

(** A call that returns keeps the options, the random source and the
    dimensions, and leaves a grid of [0]s and [1]s. *)
Lemma _next_preserves (w w' : World) :
  wf_dims w -> _next w = Ok w' ->
  _options (this w') = _options (this w) ∧ rng w' = rng w ∧ wf w' ∧
  forall n k : nat,
    (n < Z.to_nat (width (_options (this w))))%nat ->
    (k < Z.to_nat (height (_options (this w))))%nat ->
    cell (_model (this w')) n k = Some (target (this w) n k).
Proof.
  intros Hd Hnext.
  assert (Hsums : forall n k : nat,
     (n < Z.to_nat (width (_options (this w))))%nat ->
     (k < Z.to_nat (height (_options (this w))))%nat ->
     exists v, aliveNeighbours (this w) n k = Ok v).
  { intros n k Hn Hk.
    destruct (Z.eq_dec (width (_options (this w))) 1) as [Hw|Hw].
    - rewrite (_next_throws_one_column w Hd Hw ltac:(lia)) in Hnext. discriminate.
    - apply aliveNeighbours_returns; assumption. }
  destruct (_next_when_sums_return w Hd Hsums) as (nm & Hnm & Hdn & Hcells).
  rewrite Hnm in Hnext. injection Hnext as <-. cbn.
  split; [reflexivity|]. split; [reflexivity|]. split; [|exact Hcells].
  split; [exact Hdn|]. cbn.
  apply Forall_lookup. intros n col Hcol.
  apply Forall_lookup. intros k v Hv.
  assert (Hn : (n < Z.to_nat (width (_options (this w))))%nat).
  { destruct Hdn as [<- _]. eapply lookup_lt_Some, Hcol. }
  assert (Hk : (k < Z.to_nat (height (_options (this w))))%nat).
  { rewrite <- (has_dims_lookup _ _ _ _ _ Hdn Hcol). eapply lookup_lt_Some, Hv. }
  specialize (Hcells n k Hn Hk). unfold cell in Hcells.
  rewrite Hcol in Hcells. cbn in Hcells. rewrite Hv in Hcells.
  injection Hcells as ->. apply target_binary.
Qed.

(** ** The neighbour sum, cell by cell *)

Lemma live_neighbours_alive_sum m n k :
  live_neighbours m n k =
  alive_sum m (map (fun d : Z * Z => (n + d.1, k + d.2)) moore_offsets).
Proof.
  unfold live_neighbours, alive_sum.
  induction moore_offsets as [|d l IH]; [reflexivity|].
  rewrite filter_cons. cbn [map foldr fst snd]. rewrite <- IH.
  destruct (decide (is_alive m (n + d.1) (k + d.2) = true)) as [He|He].
  - rewrite He. cbn [length Z.b2z]. lia.
  - apply not_true_is_false in He. rewrite He. cbn [Z.b2z]. lia.
Qed.

Lemma read2_in_bounds m i j :
  Forall (Forall binary) m -> in_bounds m i j = true ->
  read2 m i j = Ok (JNum (Z.b2z (is_alive m i j))).
Proof.
  intros Hbin. unfold in_bounds, read2, is_alive.
  destruct (js_index m i) as [col|] eqn:Hcol; [|discriminate].
  destruct (js_index col j) as [v|] eqn:Hv; [|discriminate].
  intros _. unfold js_index in Hcol, Hv.
  destruct (i <? 0); [discriminate|]. destruct (j <? 0); [discriminate|].
  rewrite Forall_lookup in Hbin. specialize (Hbin _ _ Hcol).
  rewrite Forall_lookup in Hbin. destruct (Hbin _ _ Hv) as [-> | ->]; reflexivity.
Qed.

Lemma foldM_add_read_in_bounds m cs : forall a,
  Forall (Forall binary) m ->
  Forall (fun c : Z * Z => in_bounds m c.1 c.2 = true) cs ->
  foldM (add_read m) (JNum a) cs = Ok (JNum (a + alive_sum m cs)).
Proof.
  induction cs as [|c cs IH]; intros a Hbin Hall; cbn [foldM alive_sum foldr].
  - f_equal. f_equal. lia.
  - inversion Hall as [|? ? Hc Hcs]; subst.
    assert (Hstep : add_read m (JNum a) c =
                    Ok (JNum (a + Z.b2z (is_alive m c.1 c.2)))).
    { unfold add_read. rewrite (read2_in_bounds m _ _ Hbin Hc). reflexivity. }
    rewrite Hstep. cbn [mbind result_bind]. rewrite (IH _ Hbin Hcs).
    f_equal. f_equal. unfold alive_sum. lia.
Qed.

Lemma sum_reads_in_bounds m cs :
  Forall (Forall binary) m ->
  Forall (fun c : Z * Z => in_bounds m c.1 c.2 = true) cs ->
  sum_reads m cs = Ok (JNum (alive_sum m cs)).
Proof.
  intros Hbin Hall. destruct cs as [|c cs]; [reflexivity|].
  inversion Hall as [|? ? Hc Hcs]; subst. cbn [sum_reads].
  rewrite (read2_in_bounds m _ _ Hbin Hc). cbn [mbind result_bind].
  rewrite (foldM_add_read_in_bounds m cs _ Hbin Hcs). reflexivity.
Qed.

Lemma in_bounds_dims W H m i j :
  has_dims W H m -> 0 <= i < Z.of_nat W -> 0 <= j < Z.of_nat H ->
  in_bounds m i j = true.
Proof.
  intros Hd Hi Hj. unfold in_bounds, js_index.
  destruct (Z.ltb_spec i 0); [lia|]. destruct (Z.ltb_spec j 0); [lia|].
  destruct (has_dims_column W H m (Z.to_nat i) Hd ltac:(lia)) as (col & -> & Hlen).
  destruct (lookup_lt_is_Some_2 col (Z.to_nat j)) as [v ->]; [lia|]. reflexivity.
Qed.

Lemma is_alive_cell m (n k : nat) v :
  cell m n k = Some v -> is_alive m (Z.of_nat n) (Z.of_nat k) = js_truthy v.
Proof.
  unfold cell, is_alive. rewrite js_index_nat.
  destruct (m !! n) as [col|]; [|discriminate]. cbn.
  rewrite js_index_nat. intros ->. reflexivity.
Qed.

(** In the interior the branch "everything else" reads the eight Moore
    neighbours. *)
Lemma neighbour_reads_interior o n k :
  interior o n k ->
  neighbour_reads o n k = map (fun d : Z * Z => (n + d.1, k + d.2)) moore_offsets.
Proof.
  intros [Hn Hk]. unfold neighbour_reads.
  repeat match goal with
  | |- context [Z.eqb ?a ?b] => destruct (Z.eqb_spec a b); try lia
  | |- context [Z.ltb ?a ?b] => destruct (Z.ltb_spec a b); try lia
  end.
  cbn. repeat (f_equal; try lia).
Qed.

Lemma aliveNeighbours_interior (w : World) (n k : nat) :
  wf w -> interior (_options (this w)) (Z.of_nat n) (Z.of_nat k) ->
  aliveNeighbours (this w) n k =
  Ok (JNum (live_neighbours (_model (this w)) (Z.of_nat n) (Z.of_nat k))).
Proof.
  intros [Hd Hbin] Hint. unfold aliveNeighbours.
  rewrite (neighbour_reads_interior _ _ _ Hint), live_neighbours_alive_sum.
  apply sum_reads_in_bounds; [exact Hbin|].
  destruct Hint as [Hn Hk]. unfold moore_offsets. cbn [map fst snd].
  repeat constructor; cbn [fst snd]; eapply in_bounds_dims; try exact Hd; lia.
Qed.

(** The rule of [_next] on a count is the standard rule. *)
Lemma rule_conway cur count :
  js_truthy (match rule cur (JNum count) with Some v => v | None => JNum 0 end) =
  conway (js_truthy cur) count.
Proof.
  unfold rule, conway, js_lt, js_seq, js_gt. destruct (js_truthy cur).
  - destruct (Z.ltb_spec count 2), (Z.eqb_spec count 2), (Z.eqb_spec count 3);
      cbn; try reflexivity; try lia.
    destruct (Z.gtb_spec count 3); cbn; try reflexivity; lia.
  - destruct (Z.eqb_spec count 3); reflexivity.
Qed.

Lemma current_alive g (n k : nat) :
  js_truthy (current g n k) = is_alive (_model g) (Z.of_nat n) (Z.of_nat k).
Proof.
  unfold current, is_alive, cell. rewrite js_index_nat.
  destruct (_model g !! n) as [col|]; cbn; [|reflexivity].
  rewrite js_index_nat. destruct (col !! k); reflexivity.
Qed.

Lemma target_interior (w : World) (n k : nat) :
  wf w -> interior (_options (this w)) (Z.of_nat n) (Z.of_nat k) ->
  js_truthy (target (this w) n k) =
  conway (is_alive (_model (this w)) (Z.of_nat n) (Z.of_nat k))
         (live_neighbours (_model (this w)) (Z.of_nat n) (Z.of_nat k)).
Proof.
  intros Hwf Hint. unfold target, aliveN_value.
  rewrite (aliveNeighbours_interior w n k Hwf Hint), rule_conway, current_alive.
  reflexivity.
Qed.

(** ** Cells on the boundary *)

Lemma read2_above m i :
  0 <= i < Z.of_nat (length m) -> read2 m i (-1) = Ok JUndefined.
Proof.
  intros Hi. unfold read2, js_index at 1.
  destruct (Z.ltb_spec i 0); [lia|].
  destruct (lookup_lt_is_Some_2 m (Z.to_nat i)) as [col ->]; [lia|].
  reflexivity.
Qed.

Lemma foldM_add_read_NaN m cs :
  Forall (fun c : Z * Z => 0 <= c.1 < Z.of_nat (length m)) cs ->
  foldM (add_read m) JNaN cs = Ok JNaN.
Proof.
  induction cs as [|c cs IH]; intros Hall; cbn [foldM]; [reflexivity|].
  inversion Hall as [|? ? Hc Hcs]; subst.
  destruct (read2_returns m c.1 c.2 Hc) as [x Hx].
  assert (Hstep : add_read m JNaN c = Ok JNaN)
    by (unfold add_read; rewrite Hx; reflexivity).
  rewrite Hstep. cbn [mbind result_bind]. apply IH. assumption.
Qed.

(** The top left corner, on a model with a column [1]: the first read is
    [this._model[1][-1]], which is [undefined], and the sum is [NaN]. *)
Lemma sum_reads_top_left m :
  (2 <= length m)%nat -> sum_reads m [(1, -1); (1, 0); (1, 1)] = Ok JNaN.
Proof.
  intros Hlen. cbn [sum_reads fst snd].
  rewrite read2_above by lia. cbn [mbind result_bind foldM].
  destruct (read2_returns m 1 0) as [x Hx]; [lia|].
  assert (Hstep : add_read m JUndefined (1, 0) = Ok JNaN)
    by (unfold add_read; cbn [fst snd]; rewrite Hx; reflexivity).
  rewrite Hstep. cbn [mbind result_bind].
  apply (foldM_add_read_NaN m [(1, 1)]). repeat constructor; cbn; lia.
Qed.

(** The top right corner: the second read is [this._model[n - 1][-1]]. *)
Lemma sum_reads_top_right m n :
  1 <= n < Z.of_nat (length m) ->
  sum_reads m [(n - 1, 0); (n - 1, 0 - 1); (n, 0 + 1)] = Ok JNaN.
Proof.
  intros Hn. cbn [sum_reads fst snd].
  destruct (read2_returns m (n - 1) 0) as [x Hx]; [lia|].
  rewrite Hx. cbn [mbind result_bind foldM].
  assert (Hstep : add_read m x (n - 1, 0 - 1) = Ok JNaN).
  { unfold add_read. cbn [fst snd]. change (0 - 1) with (-1).
    rewrite read2_above by lia. destruct x; reflexivity. }
  rewrite Hstep. cbn [mbind result_bind].
  apply (foldM_add_read_NaN m [(n, 0 + 1)]). repeat constructor; cbn; lia.
Qed.

(** What the neighbour sum of a boundary cell reads: the two corner
    branches that can fire, or nothing at all. *)
Lemma neighbour_reads_boundary o n k :
  0 <= n < width o -> 0 <= k < height o -> on_boundary o n k ->
  (n = 0 ∧ k = 0 ∧ neighbour_reads o n k = [(1, -1); (1, 0); (1, 1)]) ∨
  (1 <= n ∧ k = 0 ∧
   neighbour_reads o n k = [(n - 1, 0); (n - 1, 0 - 1); (n, 0 + 1)]) ∨
  neighbour_reads o n k = [].
Proof.
  intros Hn Hk Hb. unfold on_boundary in Hb. unfold neighbour_reads.
  destruct (Z.eqb_spec n 0) as [->|Hn0], (Z.eqb_spec k 0) as [->|Hk0]; cbn [andb negb].
  - left. auto.
  - destruct (Z.eqb_spec 0 (width o - 1)), (Z.eqb_spec k (height o));
      cbn [andb]; try lia; right; right; reflexivity.
  - destruct (Z.eqb_spec n (width o - 1)); cbn [andb].
    + right. left. split; [lia|]. split; reflexivity.
    + destruct (Z.eqb_spec 0 (height o)); [lia|]. right. right. reflexivity.
  - destruct (Z.eqb_spec n (width o - 1)), (Z.eqb_spec k (height o)),
      (Z.ltb_spec n (width o - 1)), (Z.ltb_spec k (height o - 1));
      cbn [andb]; try lia; right; right; reflexivity.
Qed.

Lemma rule_NaN cur : rule cur JNaN = None.
Proof. unfold rule. destruct (js_truthy cur); reflexivity. Qed.

Lemma rule_zero cur :
  match rule cur (JNum 0) with Some v => v | None => JNum 0 end = JNum 0.
Proof. unfold rule. destruct (js_truthy cur); reflexivity. Qed.

(** A boundary cell is [0] in the new model, whatever the grid holds. *)
Lemma target_boundary (w : World) (n k : nat) :
  wf_dims w -> width (_options (this w)) <> 1 ->
  (n < Z.to_nat (width (_options (this w))))%nat ->
  (k < Z.to_nat (height (_options (this w))))%nat ->
  on_boundary (_options (this w)) (Z.of_nat n) (Z.of_nat k) ->
  target (this w) n k = JNum 0.
Proof.
  intros [HW _] Hw Hn Hk Hb. unfold target, aliveN_value, aliveNeighbours.
  destruct (neighbour_reads_boundary (_options (this w)) (Z.of_nat n) (Z.of_nat k))
    as [(_ & _ & ->) | [(Hn1 & _ & ->) | ->]]; [lia|lia|exact Hb| | |].
  - rewrite sum_reads_top_left by lia. rewrite rule_NaN. reflexivity.
  - rewrite sum_reads_top_right by lia. rewrite rule_NaN. reflexivity.
  - cbn [sum_reads]. apply rule_zero.
Qed.

Lemma interior_or_boundary o n k :
  0 <= n < width o -> 0 <= k < height o -> interior o n k ∨ on_boundary o n k.
Proof. unfold interior, on_boundary. lia. Qed.

(** ** Generated models and [restart] *)

Lemma generate_inner_length b kl g : length (generate_inner b kl g).1 = kl.
Proof.
  revert g. induction kl as [|kl IH]; intros g; cbn [generate_inner]; [reflexivity|].
  destruct (generate_cell b g) as [c g1]. specialize (IH g1).
  destruct (generate_inner b kl g1) as [rest g2]. cbn in *. lia.
Qed.

Lemma generate_outer_dims b nl kl g : has_dims nl kl (generate_outer b nl kl g).1.
Proof.
  revert g. induction nl as [|nl IH]; intros g; cbn [generate_outer].
  - split; [reflexivity|constructor].
  - pose proof (generate_inner_length b kl g) as Hin.
    destruct (generate_inner b kl g) as [col g1]. specialize (IH g1).
    destruct (generate_outer b nl kl g1) as [rest g2]. cbn in *.
    destruct IH as [Hlen Hall]. split; [cbn; lia|]. constructor; assumption.
Qed.

Lemma restart_options w : _options (this (restart w)) = _options (this w).
Proof.
  unfold restart. destruct (_generateModel _ _ _) as [m g]. reflexivity.
Qed.

Lemma restart_wf_dims w : wf_dims (restart w).
Proof.
  unfold wf_dims. rewrite restart_options. unfold restart, _generateModel.
  pose proof (generate_outer_dims true
    (Z.to_nat (width (_options (this w)))) (Z.to_nat (height (_options (this w))))
    (rng w)) as Hd.
  destruct (generate_outer _ _ _ _) as [m g]. exact Hd.
Qed.

(** *** Rounding to a double *)

Lemma Qfloor_unique (x : Q) (z : Z) :
  (inject_Z z <= x)%Q -> (x < inject_Z (z + 1))%Q -> Qfloor x = z.
Proof.
  intros Hlo Hhi.
  assert (H1 : z <= Qfloor x).
  { rewrite <- (Qfloor_Z z). apply Qfloor_resp_le. exact Hlo. }
  assert (H2 : Qfloor x < z + 1).
  { rewrite Zlt_Qlt. eapply Qle_lt_trans; [apply Qfloor_le|exact Hhi]. }
  lia.
Qed.

(** The integer part and what is left of it. *)
Lemma Qfloor_bounds (x : Q) :
  (inject_Z (Qfloor x) <= x)%Q ∧ (x < inject_Z (Qfloor x) + 1)%Q.
Proof.
  split; [apply Qfloor_le|].
  pose proof (Qlt_floor x) as H. rewrite inject_Z_plus in H. exact H.
Qed.

Lemma round_half_even_cases (x : Q) :
  (round_half_even x = Qfloor x ∧ (x - inject_Z (Qfloor x) <= 1 # 2)%Q ∧
   ((x - inject_Z (Qfloor x) == 1 # 2)%Q -> Z.even (Qfloor x) = true)) ∨
  (round_half_even x = Qfloor x + 1 ∧ (1 # 2 <= x - inject_Z (Qfloor x))%Q ∧
   ((x - inject_Z (Qfloor x) == 1 # 2)%Q -> Z.even (Qfloor x) = false)).
Proof.
  unfold round_half_even.
  destruct (Qcompare_spec (x - inject_Z (Qfloor x)) (1 # 2)) as [He|Hl|Hg].
  - destruct (Z.even (Qfloor x)) eqn:Hev.
    + left. split; [reflexivity|]. split; [lra|auto].
    + right. split; [reflexivity|]. split; [lra|auto].
  - left. split; [reflexivity|]. split; [lra|]. intros He. lra.
  - right. split; [reflexivity|]. split; [lra|]. intros He. lra.
Qed.

Lemma round_half_even_le (x : Q) (N : Z) :
  (x <= inject_Z N)%Q -> round_half_even x <= N.
Proof.
  intros Hx. destruct (Qfloor_bounds x) as [Hlo Hhi].
  assert (Hf : Qfloor x <= N).
  { rewrite Zle_Qle. lra. }
  destruct (round_half_even_cases x) as [(-> & _) | (-> & Hhalf & _)]; [exact Hf|].
  assert (Hlt : Qfloor x < N); [|lia].
  rewrite Zlt_Qlt. lra.
Qed.

Lemma round_half_even_ge (x : Q) (N : Z) :
  (inject_Z N <= x)%Q -> N <= round_half_even x.
Proof.
  intros Hx. destruct (Qfloor_bounds x) as [Hlo Hhi].
  assert (Hf : N <= Qfloor x).
  { rewrite <- (Qfloor_Z N). apply Qfloor_resp_le. exact Hx. }
  destruct (round_half_even_cases x) as [(-> & _) | (-> & _)]; lia.
Qed.

(** Rounding reaches an even integer from half a unit below it. *)
Lemma round_half_even_ge_even (x : Q) (M : Z) :
  Z.even M = true ->
  (M <= round_half_even x <-> (inject_Z M - (1 # 2) <= x)%Q).
Proof.
  intros Hev. destruct (Qfloor_bounds x) as [Hlo Hhi]. split.
  - intros HM.
    destruct (round_half_even_cases x) as [(Hr & _) | (Hr & Hhalf & _)];
      rewrite Hr in HM.
    + rewrite Zle_Qle in HM. lra.
    + rewrite Zle_Qle, inject_Z_plus in HM.
      change (inject_Z 1) with 1%Q in HM. lra.
  - intros Hx.
    assert (Hf : M < Qfloor x + 1 + 1).
    { rewrite Zlt_Qlt, !inject_Z_plus. change (inject_Z 1) with 1%Q. lra. }
    destruct (Z.eq_dec M (Qfloor x + 1)) as [Heq|Hne].
    + destruct (round_half_even_cases x) as [(Hr & Hhalf & Htie) | (Hr & _)];
        [|lia].
      exfalso. rewrite Heq, inject_Z_plus in Hx. change (inject_Z 1) with 1%Q in Hx.
      assert (Hodd : Z.even (Qfloor x) = true) by (apply Htie; lra).
      rewrite Heq, Z.even_add, Hodd in Hev. discriminate Hev.
    + destruct (round_half_even_cases x) as [(-> & _) | (-> & _)]; lia.
Qed.

Lemma pow2_pos (z : Z) : (0 < pow2 z)%Q.
Proof.
  unfold pow2. destruct (Z.ltb_spec z 0); [reflexivity|].
  change 0%Q with (inject_Z 0). rewrite <- Zlt_Qlt. apply Z.pow_pos_nonneg; lia.
Qed.

Lemma pow2_nonneg (p : Z) : 0 <= p -> pow2 p = inject_Z (2 ^ p).
Proof. intros Hp. unfold pow2. destruct (Z.ltb_spec p 0); [lia|reflexivity]. Qed.

Lemma pow2_opp (p : Z) : 0 <= p -> (pow2 (- p) * inject_Z (2 ^ p) == 1)%Q.
Proof.
  intros Hp. unfold pow2. destruct (Z.ltb_spec (- p) 0) as [Hneg|Hge].
  - rewrite Z.opp_involutive. unfold Qeq, Qmult, inject_Z. cbn [Qnum Qden].
    rewrite Pos2Z.inj_mul, Pos2Z.inj_pow, Z2Pos.id by lia. cbn. lia.
  - assert (p = 0) as -> by lia. reflexivity.
Qed.

Lemma Math_round_iff (x : Q) (z : Z) :
  Math_round x = z <-> (inject_Z z - (1 # 2) <= x)%Q ∧ (x < inject_Z z + (1 # 2))%Q.
Proof.
  unfold Math_round. split.
  - intros <-. destruct (Qfloor_bounds (x + (1 # 2))) as [Hlo Hhi]. split; lra.
  - intros [Hlo Hhi]. apply Qfloor_unique; [lra|].
    rewrite inject_Z_plus. change (inject_Z 1) with 1%Q. lra.
Qed.

Lemma binade_le (a b : positive) (k : Z) :
  0 <= k -> Zpos a <= 2 ^ k * Zpos b -> binade a b <= k.
Proof.
  intros Hk Hab. unfold binade.
  assert (Hs : Z.log2 (Zpos a) <= k + Z.log2 (Zpos b)).
  { rewrite <- Z.log2_mul_pow2 by lia. apply Z.log2_le_mono. lia. }
  destruct (Qle_bool _ _); lia.
Qed.

Lemma round_double_pos_nonneg (a b : positive) : (0 <= round_double_pos a b)%Q.
Proof.
  unfold round_double_pos. apply Qmult_le_0_compat.
  - change 0%Q with (inject_Z 0). rewrite <- Zle_Qle.
    apply round_half_even_ge. change (inject_Z 0) with 0%Q.
    apply Qmult_le_0_compat; [discriminate|]. apply Qlt_le_weak, pow2_pos.
  - apply Qlt_le_weak, pow2_pos.
Qed.

(** Rounding does not cross a power of two. *)
Lemma round_double_pos_le (a b : positive) (k : Z) :
  0 <= k <= 52 -> Zpos a <= 2 ^ k * Zpos b ->
  (round_double_pos a b <= inject_Z (2 ^ k))%Q.
Proof.
  intros Hk Hab. unfold round_double_pos.
  pose proof (binade_le a b k ltac:(lia) Hab) as He.
  set (e := Z.max (binade a b) (-1022)).
  assert (Hp : 0 <= 52 - e) by lia.
  replace (e - 52) with (- (52 - e)) by lia.
  set (p := 52 - e) in *.
  rewrite (pow2_nonneg p Hp).
  pose proof (pow2_opp p Hp) as Hinv. pose proof (pow2_pos (- p)) as Hpos.
  assert (HR : round_half_even ((Zpos a # b) * inject_Z (2 ^ p)) <= 2 ^ k * 2 ^ p).
  { apply round_half_even_le. rewrite inject_Z_mult.
    apply Qmult_le_compat_r.
    - unfold Qle. cbn [Qnum Qden inject_Z]. lia.
    - change 0%Q with (inject_Z 0). rewrite <- Zle_Qle. apply Z.pow_nonneg. lia. }
  rewrite Zle_Qle, inject_Z_mult in HR.
  set (R := inject_Z (round_half_even _)) in *.
  set (P := inject_Z (2 ^ p)) in *. set (K := inject_Z (2 ^ k)) in *.
  set (I := pow2 (- p)) in *.
  apply Qle_trans with (K * P * I)%Q.
  - apply Qmult_le_compat_r; [exact HR|apply Qlt_le_weak, Hpos].
  - rewrite <- Qmult_assoc, (Qmult_comm P I), Hinv, Qmult_1_r. apply Qle_refl.
Qed.

Lemma binade_2_4 (a b : positive) :
  2 * Zpos b <= Zpos a < 4 * Zpos b -> binade a b = 1.
Proof.
  intros [Hlo Hhi]. unfold binade.
  assert (H1 : Z.log2 (Zpos b) + 1 <= Z.log2 (Zpos a)).
  { pose proof (Z.log2_double (Zpos b) ltac:(lia)).
    pose proof (Z.log2_le_mono (2 * Zpos b) (Zpos a) ltac:(lia)). lia. }
  assert (H2 : Z.log2 (Zpos a) <= 2 + Z.log2 (Zpos b)).
  { rewrite <- Z.log2_mul_pow2 by lia. apply Z.log2_le_mono. lia. }
  assert (Hs : Z.log2 (Zpos a) - Z.log2 (Zpos b) = 1 ∨
               Z.log2 (Zpos a) - Z.log2 (Zpos b) = 2) by lia.
  destruct Hs as [-> | ->].
  - replace (Qle_bool (pow2 1) (Zpos a # b)) with true; [reflexivity|].
    symmetry. apply Qle_bool_iff. unfold Qle. cbn. lia.
  - replace (Qle_bool (pow2 2) (Zpos a # b)) with false; [reflexivity|].
    symmetry. apply not_true_is_false. rewrite Qle_bool_iff. unfold Qle. cbn. lia.
Qed.

(** A product in [[0, 3)] rounds to a double that [Math.round] takes to 3
    exactly from half a unit in the last place below 2.5, which is a tie and
    goes to the even significand of 2.5. *)
Lemma round_double_pos_three (a b : positive) :
  Zpos a < 3 * Zpos b ->
  (Math_round (round_double_pos a b) = 3 <->
   ((5 # 2) - (1 # 4503599627370496) <= Zpos a # b)%Q).
Proof.
  intros H3. rewrite Math_round_iff. change (inject_Z 3) with 3%Q.
  destruct (Z.lt_ge_cases (Zpos a) (2 * Zpos b)) as [Hlt|Hge].
  - pose proof (round_double_pos_le a b 1 ltac:(lia) ltac:(lia)) as Hle.
    change (inject_Z (2 ^ 1)) with 2%Q in Hle.
    assert (Hq : (Zpos a # b < 2)%Q) by (unfold Qlt; cbn; lia).
    split; [intros [Hlo _]; lra|].
    intros Hq'. exfalso. lra.
  - unfold round_double_pos. rewrite (binade_2_4 a b) by lia.
    change (Z.max 1 (-1022)) with 1. change (52 - 1) with 51. change (1 - 52) with (- 51).
    set (x := ((Zpos a # b) * pow2 51)%Q).
    assert (HRhi : round_half_even x <= 3 * 2 ^ 51).
    { apply round_half_even_le. unfold x, Qle. cbn. lia. }
    pose proof (round_half_even_ge_even x (5 * 2 ^ 50) eq_refl) as Hev.
    set (R := round_half_even x) in *.
    assert (HX : forall z : Z,
              (inject_Z z * pow2 (- 51) == inject_Z z * (1 # 2 ^ 51))%Q)
      by (intros z; reflexivity).
    rewrite (HX R).
    assert (Hlow : ((5 # 2 <= inject_Z R * (1 # 2 ^ 51))%Q <-> 5 * 2 ^ 50 <= R)).
    { unfold Qle. cbn. lia. }
    assert (Hhigh : (inject_Z R * (1 # 2 ^ 51) < 3 + (1 # 2))%Q).
    { unfold Qlt. cbn. cbn in HRhi. lia. }
    assert (Hx : ((inject_Z (5 * 2 ^ 50) - (1 # 2) <= x)%Q <->
                  ((5 # 2) - (1 # 4503599627370496) <= Zpos a # b)%Q)).
    { unfold x, Qle. cbn. lia. }
    rewrite <- Hx, <- Hev, <- Hlow. split; [intros [Hlo _]; lra|].
    intros Hlo. split; [lra|exact Hhigh].
Qed.

Lemma round_double_mul_1 (q : Q) : round_double (q * 1) = round_double q.
Proof.
  destruct q as [n d]. unfold round_double, Qmult. cbn [Qnum Qden].
  rewrite Z.mul_1_r, Pos.mul_1_r. reflexivity.
Qed.

Lemma round_double_unit (q : Q) :
  (0 <= q)%Q -> (q < 1)%Q -> (0 <= round_double q)%Q ∧ (round_double q <= 1)%Q.
Proof.
  destruct q as [[|a|a] d]; unfold Qle, Qlt, round_double; cbn [Qnum Qden];
    intros H0 H1.
  - split; discriminate.
  - split; [apply round_double_pos_nonneg|].
    apply (round_double_pos_le a d 0); lia.
  - lia.
Qed.

Lemma Math_round_unit (q : Q) :
  (0 <= q)%Q -> (q < 1)%Q ->
  Math_round (js_mul q 1) = 0 ∨ Math_round (js_mul q 1) = 1.
Proof.
  intros H0 H1. unfold js_mul. rewrite round_double_mul_1.
  destruct (round_double_unit q H0 H1) as [Hlo Hhi].
  destruct (Qlt_le_dec (round_double q) (1 # 2)) as [Hlt|Hge].
  - left. apply Math_round_iff. change (inject_Z 0) with 0%Q. split; lra.
  - right. apply Math_round_iff. change (inject_Z 1) with 1%Q. split; lra.
Qed.

Lemma generate_cell_binary b g :
  unit_draws g -> binary (generate_cell b g).1 ∧ unit_draws (generate_cell b g).2.
Proof.
  intros Hg. unfold generate_cell, Math_random. destruct b; [|split; [left; reflexivity|exact Hg]].
  destruct (Math_round (js_mul (draws g (cursor g)) 3) =? 3);
    cbn [fst snd draws cursor].
  - split; [|exact Hg]. destruct (Hg (S (cursor g))) as [H0 H1].
    destruct (Math_round_unit _ H0 H1) as [-> | ->]; [left|right]; reflexivity.
  - split; [left; reflexivity|exact Hg].
Qed.

Lemma generate_inner_binary b kl : forall g,
  unit_draws g ->
  Forall binary (generate_inner b kl g).1 ∧ unit_draws (generate_inner b kl g).2.
Proof.
  induction kl as [|kl IH]; intros g Hg; cbn [generate_inner].
  - split; [constructor|exact Hg].
  - destruct (generate_cell_binary b g Hg) as [Hc Hg1].
    destruct (generate_cell b g) as [c g1]. cbn [fst snd] in *.
    destruct (IH g1 Hg1) as [Hrest Hg2].
    destruct (generate_inner b kl g1) as [rest g2]. cbn [fst snd] in *.
    split; [constructor; assumption|exact Hg2].
Qed.

Lemma generate_outer_binary b nl kl : forall g,
  unit_draws g ->
  Forall (Forall binary) (generate_outer b nl kl g).1 ∧
  unit_draws (generate_outer b nl kl g).2.
Proof.
  induction nl as [|nl IH]; intros g Hg; cbn [generate_outer].
  - split; [constructor|exact Hg].
  - destruct (generate_inner_binary b kl g Hg) as [Hc Hg1].
    destruct (generate_inner b kl g) as [col g1]. cbn [fst snd] in *.
    destruct (IH g1 Hg1) as [Hrest Hg2].
    destruct (generate_outer b nl kl g1) as [rest g2]. cbn [fst snd] in *.
    split; [constructor; assumption|exact Hg2].
Qed.

(** With draws in [[0, 1)], [restart] leaves a grid of [0]s and [1]s. *)
Lemma restart_wf w : unit_draws (rng w) -> wf (restart w) ∧ unit_draws (rng (restart w)).
Proof.
  intros Hg. split; [split; [apply restart_wf_dims|]|].
  - unfold restart, _generateModel.
    destruct (generate_outer_binary true
      (Z.to_nat (width (_options (this w)))) (Z.to_nat (height (_options (this w))))
      (rng w) Hg) as [Hb _].
    destruct (generate_outer _ _ _ _) as [m g]. exact Hb.
  - unfold restart, _generateModel.
    destruct (generate_outer_binary true
      (Z.to_nat (width (_options (this w)))) (Z.to_nat (height (_options (this w))))
      (rng w) Hg) as [_ Hu].
    destruct (generate_outer _ _ _ _) as [m g]. exact Hu.
Qed.

(** ** The world after a call of [_next] *)

Lemma step_options w : wf_dims w -> _options (this (step w)) = _options (this w).
Proof.
  intros Hd. unfold step. destruct (_next w) as [w'|e] eqn:Hn; [|reflexivity].
  apply (_next_preserves w w' Hd Hn).
Qed.

Lemma step_wf_dims w : wf_dims w -> wf_dims (step w).
Proof.
  intros Hd. unfold step. destruct (_next w) as [w'|e] eqn:Hn; [|exact Hd].
  apply (_next_preserves w w' Hd Hn).
Qed.

Lemma step_wf w : wf w -> wf (step w).
Proof.
  intros Hwf. unfold step. destruct (_next w) as [w'|e] eqn:Hn; [|exact Hwf].
  apply (_next_preserves w w' (proj1 Hwf) Hn).
Qed.

Lemma step_rng w : wf_dims w -> rng (step w) = rng w.
Proof.
  intros Hd. unfold step. destruct (_next w) as [w'|e] eqn:Hn; [|reflexivity].
  apply (_next_preserves w w' Hd Hn).
Qed.

(** ** Properties of the engine *)

(** Discharges [wf] and [wf_dims] on a concrete world. *)
Ltac concrete_wf :=
  repeat match goal with
  | |- wf _ => split
  | |- wf_dims _ => split; [reflexivity|]
  | |- Forall _ _ => constructor
  | |- _ = _ => reflexivity
  | |- binary _ => (left; reflexivity) || (right; reflexivity)
  end.

Lemma coordinates_nat (W H : Z) (n k : Z) :
  0 <= n < W -> 0 <= k < H ->
  exists n' k' : nat, n = Z.of_nat n' ∧ k = Z.of_nat k' ∧
    (n' < Z.to_nat W)%nat ∧ (k' < Z.to_nat H)%nat.
Proof.
  intros Hn Hk. exists (Z.to_nat n), (Z.to_nat k). lia.
Qed.

(** C1: on every grid, [_next] returns and gives every strictly interior
    cell the state of the standard rule: alive exactly when [conway] of its
    current state and of the number of its live Moore neighbours says so.
    In particular an interior cell with exactly 3 live neighbours is alive
    in the new grid, whatever its current state. *)
Theorem step_interior_standard_rule (w : World) (n k : Z) :
  wf w -> interior (_options (this w)) n k ->
  exists w', _next w = Ok w' ∧
    is_alive (_model (this w')) n k =
      conway (is_alive (_model (this w)) n k)
             (live_neighbours (_model (this w)) n k) ∧
    (live_neighbours (_model (this w)) n k = 3 ->
     is_alive (_model (this w')) n k = true).
Proof.
  intros Hwf Hint.
  assert (Hw : width (_options (this w)) <> 1) by (destruct Hint; lia).
  destruct (_next_returns w (proj1 Hwf) Hw) as (nm & Hnext & _ & Hcells).
  eexists. split; [exact Hnext|]. cbn [this _model].
  destruct (coordinates_nat (width (_options (this w))) (height (_options (this w))) n k)
    as (n' & k' & -> & -> & Hn & Hk); [destruct Hint; lia..|].
  rewrite (is_alive_cell _ _ _ _ (Hcells n' k' Hn Hk)).
  rewrite (target_interior w n' k' Hwf Hint).
  split; [reflexivity|].
  intros ->. unfold conway. destruct (is_alive _ _ _); reflexivity.
Qed.

Lemma step_interior_standard_rule_witness :
  exists w', _next (world_of 3 3 [[1; 1; 0]; [1; 0; 0]; [0; 0; 0]]) = Ok w' ∧
    is_alive (_model (this w')) 1 1 =
      conway (is_alive (_model (this (world_of 3 3 [[1; 1; 0]; [1; 0; 0]; [0; 0; 0]]))) 1 1)
             (live_neighbours (_model (this (world_of 3 3 [[1; 1; 0]; [1; 0; 0]; [0; 0; 0]]))) 1 1) ∧
    (live_neighbours (_model (this (world_of 3 3 [[1; 1; 0]; [1; 0; 0]; [0; 0; 0]]))) 1 1 = 3 ->
     is_alive (_model (this w')) 1 1 = true).
Proof.
  apply (step_interior_standard_rule (world_of 3 3 [[1; 1; 0]; [1; 0; 0]; [0; 0; 0]]) 1 1).
  - concrete_wf.
  - unfold interior. cbn. lia.
Defined.

(** C10 (the code departs from it): on the 1 by 1 grid with a live cell
    the "Top left corner" branch reads the missing column [this._model[1]]
    and [_next] throws a [TypeError] before a new model is assigned.  The
    cell lies on the boundary and has no live neighbour, so it is to be dead
    after the call; it is still alive. *)
Lemma boundary_alive_after_step_one_column :
  wf (world_of 1 1 [[1]]) ∧
  on_boundary (_options (this (world_of 1 1 [[1]]))) 0 0 ∧
  _next (world_of 1 1 [[1]]) = Throw TypeError ∧
  is_alive (_model (this (step (world_of 1 1 [[1]])))) 0 0 = true.
Proof.
  split; [concrete_wf|]. split; [left; reflexivity|].
  split; reflexivity.
Qed.

(** On every grid whose width is not 1, whatever its cells hold, [_next]
    returns and every cell on the boundary (row 0, column 0, last row or
    last column) is dead in the new grid. *)
Theorem step_boundary_dead (w : World) (n k : Z) :
  wf_dims w -> width (_options (this w)) <> 1 ->
  0 <= n < width (_options (this w)) -> 0 <= k < height (_options (this w)) ->
  on_boundary (_options (this w)) n k ->
  exists w', _next w = Ok w' ∧ is_alive (_model (this w')) n k = false.
Proof.
  intros Hd Hw Hn Hk Hb.
  destruct (_next_returns w Hd Hw) as (nm & Hnext & _ & Hcells).
  eexists. split; [exact Hnext|]. cbn [this _model].
  destruct (coordinates_nat _ _ n k Hn Hk) as (n' & k' & -> & -> & Hn' & Hk').
  rewrite (is_alive_cell _ _ _ _ (Hcells n' k' Hn' Hk')).
  rewrite (target_boundary w n' k' Hd Hw Hn' Hk' Hb). reflexivity.
Qed.

Lemma step_boundary_dead_witness :
  exists w', _next (world_of 2 2 [[1; 1]; [1; 1]]) = Ok w' ∧
    is_alive (_model (this w')) 0 1 = false.
Proof.
  apply (step_boundary_dead (world_of 2 2 [[1; 1]; [1; 1]]) 0 1).
  - concrete_wf.
  - cbn. lia.
  - cbn. lia.
  - cbn. lia.
  - left. reflexivity.
Defined.

Lemma no_live_cell_is_alive m :
  no_live_cell m <-> forall n k : Z, is_alive m n k = false.
Proof.
  unfold no_live_cell. split.
  - intros Hall n k. unfold is_alive, js_index.
    destruct (n <? 0); [reflexivity|].
    destruct (m !! Z.to_nat n) as [col|] eqn:Hcol; [|reflexivity].
    destruct (k <? 0); [reflexivity|].
    destruct (col !! Z.to_nat k) as [v|] eqn:Hv; [|reflexivity].
    rewrite Forall_lookup in Hall. specialize (Hall _ _ Hcol).
    rewrite Forall_lookup in Hall. exact (Hall _ _ Hv).
  - intros Hdead. apply Forall_lookup. intros n col Hcol.
    apply Forall_lookup. intros k v Hv.
    rewrite <- (is_alive_cell m n k v); [apply Hdead|].
    unfold cell. rewrite Hcol. exact Hv.
Qed.

Lemma live_neighbours_none m n k :
  (forall i j : Z, is_alive m i j = false) -> live_neighbours m n k = 0.
Proof.
  intros Hdead. rewrite live_neighbours_alive_sum.
  unfold alive_sum, moore_offsets. cbn [map foldr fst snd].
  rewrite !Hdead. reflexivity.
Qed.

Lemma is_alive_in_range W H m n k :
  has_dims W H m -> is_alive m n k = true ->
  0 <= n < Z.of_nat W ∧ 0 <= k < Z.of_nat H.
Proof.
  intros Hd. unfold is_alive, js_index.
  destruct (Z.ltb_spec n 0); [discriminate|].
  destruct (m !! Z.to_nat n) as [col|] eqn:Hcol; [|discriminate].
  destruct (Z.ltb_spec k 0); [discriminate|].
  destruct (col !! Z.to_nat k) as [v|] eqn:Hv; [|discriminate].
  intros _. pose proof (lookup_lt_Some _ _ _ Hcol) as Hn.
  pose proof (lookup_lt_Some _ _ _ Hv) as Hk.
  rewrite (has_dims_lookup W H m _ _ Hd Hcol) in Hk.
  destruct Hd as [HW _]. lia.
Qed.

(** A call that returns on a grid with a cell in range is a call on a grid
    that is not one column wide. *)
Lemma returns_not_one_column w w' :
  wf_dims w -> _next w = Ok w' -> 1 <= height (_options (this w)) ->
  width (_options (this w)) <> 1.
Proof.
  intros Hd Hnext Hh Hw.
  rewrite (_next_throws_one_column w Hd Hw Hh) in Hnext. discriminate.
Qed.

Lemma step_no_live_cell w :
  wf w -> no_live_cell (_model (this w)) -> no_live_cell (_model (this (step w))).
Proof.
  intros Hwf Hdead. unfold step.
  destruct (_next w) as [w'|e] eqn:Hnext; [|exact Hdead].
  destruct (_next_preserves w w' (proj1 Hwf) Hnext) as (Ho & _ & [Hd' _] & Hcells).
  apply no_live_cell_is_alive. intros n k.
  destruct (is_alive (_model (this w')) n k) eqn:Ha; [|reflexivity].
  unfold wf_dims in Hd'. rewrite Ho in Hd'.
  destruct (is_alive_in_range _ _ _ _ _ Hd' Ha) as [Hn Hk].
  destruct (coordinates_nat (width (_options (this w))) (height (_options (this w))) n k)
    as (n' & k' & -> & -> & Hn' & Hk'); [lia..|].
  rewrite (is_alive_cell _ _ _ _ (Hcells n' k' Hn' Hk')) in Ha.
  rewrite <- Ha. clear Ha.
  destruct (interior_or_boundary (_options (this w)) (Z.of_nat n') (Z.of_nat k'))
    as [Hint|Hb]; [lia..| |].
  - rewrite (target_interior w n' k' Hwf Hint).
    apply no_live_cell_is_alive with (n := Z.of_nat n') (k := Z.of_nat k') in Hdead as Hc.
    rewrite Hc, live_neighbours_none by (apply no_live_cell_is_alive; exact Hdead).
    reflexivity.
  - rewrite (target_boundary w n' k' (proj1 Hwf)); [reflexivity| |lia|lia|exact Hb].
    apply (returns_not_one_column w w' (proj1 Hwf) Hnext). lia.
Qed.

Lemma iter_step_wf (calls : nat) w : wf w -> wf (Nat.iter calls step w).
Proof.
  intros Hwf. induction calls as [|calls IH]; [exact Hwf|].
  rewrite Nat.iter_succ. apply step_wf, IH.
Qed.

Lemma iter_step_options (calls : nat) w :
  wf w -> _options (this (Nat.iter calls step w)) = _options (this w).
Proof.
  intros Hwf. induction calls as [|calls IH]; [reflexivity|].
  rewrite Nat.iter_succ, step_options; [exact IH|].
  apply iter_step_wf, Hwf.
Qed.

(** C5: on a grid without a live cell, the grid after any number of calls
    of [_next] has no live cell either; and unless the grid is one column
    wide every one of these calls returns. *)
Theorem empty_grid_stays_empty (w : World) (calls : nat) :
  wf w -> no_live_cell (_model (this w)) ->
  no_live_cell (_model (this (Nat.iter calls step w))) ∧
  (width (_options (this w)) <> 1 ->
   exists w', _next (Nat.iter calls step w) = Ok w').
Proof.
  intros Hwf Hdead. split.
  - induction calls as [|calls IH]; [exact Hdead|].
    rewrite Nat.iter_succ. apply step_no_live_cell; [apply iter_step_wf, Hwf|exact IH].
  - intros Hw.
    destruct (_next_returns (Nat.iter calls step w)) as (nm & Hnext & _).
    + apply iter_step_wf, Hwf.
    + rewrite iter_step_options by exact Hwf. exact Hw.
    + eexists. exact Hnext.
Qed.

Lemma empty_grid_stays_empty_witness :
  no_live_cell (_model (this (Nat.iter 2 step
    (world_of 3 3 [[0; 0; 0]; [0; 0; 0]; [0; 0; 0]])))) ∧
  (width (_options (this (world_of 3 3 [[0; 0; 0]; [0; 0; 0]; [0; 0; 0]]))) <> 1 ->
   exists w', _next (Nat.iter 2 step
     (world_of 3 3 [[0; 0; 0]; [0; 0; 0]; [0; 0; 0]])) = Ok w').
Proof.
  apply (empty_grid_stays_empty (world_of 3 3 [[0; 0; 0]; [0; 0; 0]; [0; 0; 0]]) 2).
  - concrete_wf.
  - repeat constructor.
Defined.

(** C8: with positive [w] and [h] and [randomizePopulation] false,
    [_generateModel] yields a grid of [w] columns by [h] rows in which
    every cell is [0], dead. *)
Theorem generateModel_blank_all_dead (w h i : Z) (g : RNG) :
  0 < w -> 0 < h ->
  has_dims (Z.to_nat w) (Z.to_nat h) (_generateModel (mkOptions w h i) false g).1 ∧
  Forall (Forall (fun v => v = JNum 0)) (_generateModel (mkOptions w h i) false g).1 ∧
  no_live_cell (_generateModel (mkOptions w h i) false g).1.
Proof.
  intros _ _. rewrite _generateModel_blank. cbn [fst width height].
  split; [apply has_dims_replicate|].
  split; apply Forall_replicate, Forall_replicate; reflexivity.
Qed.

Lemma generateModel_blank_all_dead_witness :
  has_dims (Z.to_nat 3) (Z.to_nat 2) (_generateModel (mkOptions 3 2 100) false rng0).1 ∧
  Forall (Forall (fun v => v = JNum 0)) (_generateModel (mkOptions 3 2 100) false rng0).1 ∧
  no_live_cell (_generateModel (mkOptions 3 2 100) false rng0).1.
Proof.
  apply (generateModel_blank_all_dead 3 2 100 rng0); lia.
Defined.

(** The constructor always returns, with the defaulted options and a model
    of their dimensions. *)
Lemma new_GameOfLife_returns (options : UserOptions) (g : RNG) :
  exists w, new_GameOfLife options g = Ok w ∧
    _options (this w) =
      mkOptions (js_or_default (user_width options) 100)
                (js_or_default (user_height options) 100)
                (js_or_default (user_interval options) 100) ∧
    wf_dims w.
Proof.
  unfold new_GameOfLife. eexists. split; [reflexivity|].
  split; [apply restart_options|apply restart_wf_dims].
Qed.

(** C4, as stated, fails: the constructor validates nothing.  With width 0
    and height -5 it returns an engine 100 columns wide (the default) whose
    columns hold no cell. *)
Lemma constructor_accepts_non_positive :
  exists w,
    new_GameOfLife (mkUserOptions (Some 0) (Some (-5)) None) rng0 = Ok w ∧
    width (_options (this w)) = 100 ∧ height (_options (this w)) = -5 ∧
    _model (this w) = replicate 100 [].
Proof.
  eexists. split; [reflexivity|]. repeat split; vm_compute; reflexivity.
Qed.

(** C4 (amended): constructing the engine with a non-positive width or
    height does not fail.  A width or height of 0 is replaced by the default
    100; a negative one is kept, and the model then holds no cell: no
    column for a negative width, empty columns for a negative height. *)
Theorem constructor_non_positive_dimensions (options : UserOptions) (g : RNG) :
  exists w, new_GameOfLife options g = Ok w ∧
    (user_width options = Some 0 -> width (_options (this w)) = 100) ∧
    (user_height options = Some 0 -> height (_options (this w)) = 100) ∧
    (forall x, user_width options = Some x -> x < 0 ->
       width (_options (this w)) = x ∧ _model (this w) = []) ∧
    (forall y, user_height options = Some y -> y < 0 ->
       height (_options (this w)) = y ∧
       Forall (fun col => col = []) (_model (this w))).
Proof.
  destruct (new_GameOfLife_returns options g) as (w & Hnew & Ho & [HW Hall]).
  exists w. split; [exact Hnew|]. rewrite Ho in HW, Hall. rewrite Ho.
  cbn [width height] in *.
  split; [intros ->; reflexivity|]. split; [intros ->; reflexivity|]. split.
  - intros x Hx Hneg. rewrite Hx in HW |- *. cbn in HW |- *.
    destruct (Z.eqb_spec x 0); [lia|]. split; [reflexivity|].
    apply length_zero_iff_nil. lia.
  - intros y Hy Hneg. rewrite Hy in Hall |- *. cbn in Hall |- *.
    destruct (Z.eqb_spec y 0); [lia|]. split; [reflexivity|].
    eapply Forall_impl; [exact Hall|]. cbn. intros col Hlen.
    apply length_zero_iff_nil. lia.
Qed.

Lemma perform_wf_dims w op :
  wf_dims w ->
  wf_dims (perform w op) ∧ _options (this (perform w op)) = _options (this w).
Proof.
  intros Hd. destruct op; cbn [perform].
  - split; [apply restart_wf_dims|apply restart_options].
  - split; [apply step_wf_dims, Hd|apply step_options, Hd].
Qed.

Lemma run_wf_dims ops : forall w,
  wf_dims w ->
  wf_dims (run ops w) ∧ _options (this (run ops w)) = _options (this w).
Proof.
  unfold run. induction ops as [|op ops IH]; intros w Hd; cbn [foldl].
  - split; [exact Hd|reflexivity].
  - destruct (perform_wf_dims w op Hd) as [Hd1 Ho1].
    destruct (IH _ Hd1) as [Hd2 Ho2]. split; [exact Hd2|congruence].
Qed.

(** Every engine reached from the constructor by [restart] and [_next]
    calls holds a grid, as long as the random source draws from [[0, 1)]. *)
Lemma perform_wf w op :
  wf w -> unit_draws (rng w) ->
  wf (perform w op) ∧ unit_draws (rng (perform w op)).
Proof.
  intros Hwf Hg. destruct op; cbn [perform].
  - apply restart_wf, Hg.
  - split; [apply step_wf, Hwf|]. rewrite step_rng by apply Hwf. exact Hg.
Qed.

(** X8: with a random source drawing from [[0, 1)], the constructor
    returns and the engine holds a grid after any sequence of [restart] and
    [_next] calls: the model has the configured dimensions and every cell is
    0 or 1. *)
Lemma reachable_wf (options : UserOptions) (g : RNG) (ops : list operation) :
  unit_draws g ->
  exists w, new_GameOfLife options g = Ok w ∧ wf (run ops w).
Proof.
  intros Hg. unfold new_GameOfLife. eexists. split; [reflexivity|].
  match goal with |- wf (run ops ?w0) =>
    assert (H0 : wf w0 ∧ unit_draws (rng w0)) by (apply restart_wf; exact Hg);
    generalize dependent w0
  end.
  unfold run. induction ops as [|op ops IH]; intros w0 [Hwf Hu]; cbn [foldl].
  - exact Hwf.
  - apply IH, perform_wf; assumption.
Qed.

(** C9: on every grid, of [W] columns by [H] rows say, a call of [_next]
    that returns produces a grid of [W] columns by [H] rows, and it does
    return unless the grid is one column wide.  After any sequence of
    [restart] and [_next] calls the options are the ones the engine was
    constructed with and the grid still has [W] columns by [H] rows. *)
Theorem dimensions_never_change (w : World) :
  wf_dims w ->
  (forall w', _next w = Ok w' ->
     _options (this w') = _options (this w) ∧
     has_dims (Z.to_nat (width (_options (this w))))
              (Z.to_nat (height (_options (this w)))) (_model (this w'))) ∧
  (width (_options (this w)) <> 1 -> exists w', _next w = Ok w') ∧
  (forall ops : list operation,
     _options (this (run ops w)) = _options (this w) ∧
     has_dims (Z.to_nat (width (_options (this w))))
              (Z.to_nat (height (_options (this w)))) (_model (this (run ops w)))).
Proof.
  intros Hd. split; [|split].
  - intros w' Hnext.
    destruct (_next_preserves w w' Hd Hnext) as (Ho & _ & [Hd' _] & _).
    split; [exact Ho|]. unfold wf_dims in Hd'. rewrite Ho in Hd'. exact Hd'.
  - intros Hw. destruct (_next_returns w Hd Hw) as (nm & Hnext & _).
    eexists. exact Hnext.
  - intros ops. destruct (run_wf_dims ops w Hd) as [Hd' Ho].
    split; [exact Ho|]. unfold wf_dims in Hd'. rewrite Ho in Hd'. exact Hd'.
Qed.

Lemma dimensions_never_change_witness :
  (forall w', _next (world_of 3 3 [[0; 1; 0]; [0; 1; 0]; [0; 1; 0]]) = Ok w' ->
     _options (this w') = mkOptions 3 3 100 ∧
     has_dims 3 3 (_model (this w'))) ∧
  (3 <> 1 -> exists w', _next (world_of 3 3 [[0; 1; 0]; [0; 1; 0]; [0; 1; 0]]) = Ok w') ∧
  (forall ops : list operation,
     _options (this (run ops (world_of 3 3 [[0; 1; 0]; [0; 1; 0]; [0; 1; 0]]))) =
       mkOptions 3 3 100 ∧
     has_dims 3 3
       (_model (this (run ops (world_of 3 3 [[0; 1; 0]; [0; 1; 0]; [0; 1; 0]]))))).
Proof.
  apply (dimensions_never_change (world_of 3 3 [[0; 1; 0]; [0; 1; 0]; [0; 1; 0]])).
  concrete_wf.
Defined.

Lemma interior_b_spec o n k : interior_b o n k = true <-> interior o n k.
Proof. unfold interior_b, interior. rewrite !andb_true_iff, !Z.leb_le. lia. Qed.

Lemma pattern_model_dims W H P : has_dims W H (pattern_model W H P).
Proof.
  unfold pattern_model. split.
  - rewrite length_map, length_seq. reflexivity.
  - apply Forall_map, Forall_forall. intros n _. cbn.
    rewrite length_map, length_seq. reflexivity.
Qed.

Lemma pattern_model_cell W H P (n k : nat) :
  (n < W)%nat -> (k < H)%nat ->
  cell (pattern_model W H P) n k = Some (JNum (Z.b2z (P (Z.of_nat n) (Z.of_nat k)))).
Proof.
  intros Hn Hk. unfold cell, pattern_model.
  rewrite list_lookup_fmap, lookup_seq_lt by assumption. cbn.
  rewrite list_lookup_fmap, lookup_seq_lt by assumption. reflexivity.
Qed.

Lemma pattern_model_binary W H P : Forall (Forall binary) (pattern_model W H P).
Proof.
  unfold pattern_model. apply Forall_map, Forall_forall. intros n _. cbn.
  apply Forall_map, Forall_forall. intros k _. cbn.
  destruct (P _ _); [right|left]; reflexivity.
Qed.

Lemma pattern_world_wf o P g : wf (pattern_world o P g).
Proof.
  split; [apply pattern_model_dims|apply pattern_model_binary].
Qed.

Lemma pattern_model_alive W H P n k :
  0 <= n < Z.of_nat W -> 0 <= k < Z.of_nat H ->
  is_alive (pattern_model W H P) n k = P n k.
Proof.
  intros Hn Hk.
  destruct (coordinates_nat (Z.of_nat W) (Z.of_nat H) n k Hn Hk)
    as (n' & k' & -> & -> & Hn' & Hk').
  rewrite (is_alive_cell _ _ _ _ (pattern_model_cell W H P n' k' ltac:(lia) ltac:(lia))).
  destruct (P _ _); reflexivity.
Qed.

(** Two grids of the same dimensions with the same cells are equal. *)
Lemma model_ext W H (m1 m2 : Model) :
  has_dims W H m1 -> has_dims W H m2 ->
  (forall n k : nat, (n < W)%nat -> (k < H)%nat -> cell m1 n k = cell m2 n k) ->
  m1 = m2.
Proof.
  intros Hd1 Hd2 Hcells. apply list_eq. intros n.
  destruct (Nat.lt_ge_cases n W) as [Hn|Hn].
  - destruct (has_dims_column W H m1 n Hd1 Hn) as (c1 & Hc1 & Hl1).
    destruct (has_dims_column W H m2 n Hd2 Hn) as (c2 & Hc2 & Hl2).
    rewrite Hc1, Hc2. f_equal. apply list_eq. intros k.
    destruct (Nat.lt_ge_cases k H) as [Hk|Hk].
    + specialize (Hcells n k Hn Hk). unfold cell in Hcells.
      rewrite Hc1, Hc2 in Hcells. exact Hcells.
    + rewrite !lookup_ge_None_2 by lia. reflexivity.
  - destruct Hd1 as [Hl1 _], Hd2 as [Hl2 _].
    rewrite !lookup_ge_None_2 by lia. reflexivity.
Qed.

Lemma pattern_model_ext W H P Q :
  (forall n k : Z, 0 <= n < Z.of_nat W -> 0 <= k < Z.of_nat H -> P n k = Q n k) ->
  pattern_model W H P = pattern_model W H Q.
Proof.
  intros Heq. apply (model_ext W H); try apply pattern_model_dims.
  intros n k Hn Hk. rewrite !pattern_model_cell by assumption.
  rewrite Heq by lia. reflexivity.
Qed.

Lemma binary_truthy v : binary v -> v = JNum (Z.b2z (js_truthy v)).
Proof. intros [-> | ->]; reflexivity. Qed.

Lemma live_neighbours_pattern W H P n k :
  1 <= n <= Z.of_nat W - 2 -> 1 <= k <= Z.of_nat H - 2 ->
  live_neighbours (pattern_model W H P) n k = pattern_count P n k.
Proof.
  intros Hn Hk. rewrite live_neighbours_alive_sum.
  unfold alive_sum, pattern_count, moore_offsets. cbn [map foldr fst snd].
  rewrite !pattern_model_alive by lia. reflexivity.
Qed.

(** [_next] in closed form: on the grid of a pattern, in an engine that is
    not one column wide, it returns the grid of [next_pattern]. *)
Lemma _next_pattern_world o P g :
  width o <> 1 ->
  _next (pattern_world o P g) = Ok (pattern_world o (next_pattern o P) g).
Proof.
  intros Hw. set (w := pattern_world o P g).
  assert (Hwf : wf w) by apply pattern_world_wf.
  destruct (_next_returns w (proj1 Hwf) Hw) as (nm & Hnext & Hd & Hcells).
  rewrite Hnext. change (_options (this w)) with o in *. change (rng w) with g.
  unfold pattern_world. do 3 f_equal.
  apply (model_ext _ _ _ _ Hd (pattern_model_dims _ _ _)).
  intros n k Hn Hk. rewrite (Hcells n k Hn Hk), pattern_model_cell by assumption.
  f_equal. rewrite (binary_truthy _ (target_binary _ n k)). do 2 f_equal.
  unfold next_pattern.
  destruct (interior_b o (Z.of_nat n) (Z.of_nat k)) eqn:Hint; cbn [andb].
  - apply interior_b_spec in Hint.
    rewrite (target_interior w n k Hwf Hint).
    change (_model (this w))
      with (pattern_model (Z.to_nat (width o)) (Z.to_nat (height o)) P).
    destruct Hint as [Hin Hik].
    rewrite live_neighbours_pattern, pattern_model_alive by lia. reflexivity.
  - rewrite (target_boundary w n k (proj1 Hwf) Hw Hn Hk); [reflexivity|].
    change (_options (this w)) with o.
    destruct (interior_or_boundary o (Z.of_nat n) (Z.of_nat k)) as [Hi|Hb];
      [lia|lia| |exact Hb].
    apply interior_b_spec in Hi. congruence.
Qed.

(** Every grid is the grid of its own live cells. *)
Lemma wf_pattern_world w :
  wf w -> w = pattern_world (_options (this w)) (is_alive (_model (this w))) (rng w).
Proof.
  intros [Hd Hbin]. destruct w as [[o m] g].
  unfold wf_dims in Hd. cbn [this _model _options rng] in *. unfold pattern_world.
  do 2 f_equal. apply (model_ext _ _ _ _ Hd (pattern_model_dims _ _ _)).
  intros n k Hn Hk. rewrite pattern_model_cell by assumption.
  destruct (has_dims_cell _ _ m n k Hd Hn Hk) as [v Hv].
  rewrite Hv, (is_alive_cell _ _ _ _ Hv). f_equal. apply binary_truthy.
  unfold cell in Hv. destruct (m !! n) as [col|] eqn:Hcol; [|discriminate].
  cbn in Hv. rewrite Forall_lookup in Hbin. specialize (Hbin _ _ Hcol).
  rewrite Forall_lookup in Hbin. exact (Hbin _ _ Hv).
Qed.

(** ** Patterns: the blinker and the block *)

(** Decides the comparisons in the goal one by one, dropping the cases the
    context excludes. *)
Ltac decide_tests :=
  repeat match goal with
  | |- context [Z.eqb ?a ?b] => destruct (Z.eqb_spec a b); try lia
  | |- context [Z.leb ?a ?b] => destruct (Z.leb_spec a b); try lia
  end.



Lemma block_evolves a b n k :
  conway (block a b n k) (pattern_count (block a b) n k) = block a b n k.
Proof.
  unfold pattern_count, moore_offsets, block. cbn [foldr fst snd].
  decide_tests; reflexivity.
Qed.

Lemma pattern_world_ext o P Q g :
  (forall n k : Z, 0 <= n < width o -> 0 <= k < height o -> P n k = Q n k) ->
  pattern_world o P g = pattern_world o Q g.
Proof.
  intros Heq. unfold pattern_world. do 2 f_equal.
  apply pattern_model_ext. intros n k Hn Hk. apply Heq; lia.
Qed.

(** A grid whose live cells are those of [P] is the grid of [P]. *)
Lemma grid_of_live_cells (w : World) (P : Z -> Z -> bool) :
  wf w ->
  (forall n k : Z,
     0 <= n < width (_options (this w)) -> 0 <= k < height (_options (this w)) ->
     is_alive (_model (this w)) n k = P n k) ->
  w = pattern_world (_options (this w)) P (rng w).
Proof.
  intros Hwf Hlive. rewrite (wf_pattern_world w Hwf) at 1.
  apply pattern_world_ext. exact Hlive.
Qed.





(** The grid of the witness, cell by cell. *)
Example blinker_grid :
  pattern_world (mkOptions 5 5 100) (horizontal 2 2) rng0 =
  world_of 5 5 [[0; 0; 0; 0; 0]; [0; 0; 1; 0; 0]; [0; 0; 1; 0; 0];
                [0; 0; 1; 0; 0]; [0; 0; 0; 0; 0]].
Proof. reflexivity. Qed.

(** A block none of whose cells lies on the boundary is a still life. *)
Lemma _next_block_interior o g a b :
  1 <= a <= width o - 3 -> 1 <= b <= height o - 3 ->
  _next (pattern_world o (block a b) g) = Ok (pattern_world o (block a b) g).
Proof.
  intros Ha Hb. rewrite _next_pattern_world by lia. f_equal.
  apply pattern_world_ext. intros n k _ _.
  unfold next_pattern. rewrite block_evolves.
  unfold interior_b, block. decide_tests; reflexivity.
Qed.

(** X5: a 2 by 2 block none of whose cells lies on the boundary is a
    still life: any number of [_next] calls leaves the whole engine, grid,
    options and random source, as it was. *)
Lemma block_interior_still_life o g a b (calls : nat) :
  1 <= a <= width o - 3 -> 1 <= b <= height o - 3 ->
  Nat.iter calls step (pattern_world o (block a b) g) = pattern_world o (block a b) g.
Proof.
  intros Ha Hb. induction calls as [|calls IH]; [reflexivity|].
  rewrite Nat.iter_succ, IH. unfold step.
  rewrite _next_block_interior by assumption. reflexivity.
Qed.

(** ** Where the boundary branches of [_next] go wrong *)

(** For every engine at least two columns wide with a cell [(0, 0)], the
    neighbour sum of the top left corner is [NaN]. *)
Lemma aliveNeighbours_top_left (w : World) :
  wf_dims w -> 2 <= width (_options (this w)) ->
  aliveNeighbours (this w) 0 0 = Ok JNaN.
Proof.
  intros [HW _] Hw. unfold aliveNeighbours.
  change (Z.of_nat 0) with 0. rewrite neighbour_reads_top_left.
  apply sum_reads_top_left. lia.
Qed.

(** C2 (the code departs from it): in the 3 by 3 grid with live cells
    [(0,0)], [(1,0)] and [(1,1)], the edge cell [(0,1)] has three live
    in-bounds neighbours, yet [_next] reads none of them, leaves its
    neighbour sum at [0], and the cell, which the rule makes alive, is dead
    in the new grid. *)
Theorem edge_cell_neighbours_not_counted :
  live_neighbours (_model (this (world_of 3 3 [[1; 0; 0]; [1; 1; 0]; [0; 0; 0]]))) 0 1 = 3 ∧
  neighbour_reads (mkOptions 3 3 100) 0 1 = [] ∧
  aliveNeighbours (this (world_of 3 3 [[1; 0; 0]; [1; 1; 0]; [0; 0; 0]])) 0 1 = Ok (JNum 0) ∧
  conway false 3 = true ∧
  _next (world_of 3 3 [[1; 0; 0]; [1; 1; 0]; [0; 0; 0]]) =
    Ok (world_of 3 3 [[0; 0; 0]; [0; 1; 0]; [0; 0; 0]]).
Proof. repeat split; reflexivity. Qed.

(** C3 (the code departs from it): in the 2 by 2 grid with every cell
    alive, the neighbour sum of the corner [(0, 0)] reads [(1,-1)], [(1,0)]
    and [(1,1)]: the first is out of bounds, [(0,1)] is never read, the sum
    is [NaN] instead of 3, and the corner dies. *)
Theorem top_left_corner_reads_out_of_bounds :
  neighbour_reads (mkOptions 2 2 100) 0 0 = [(1, -1); (1, 0); (1, 1)] ∧
  in_bounds (_model (this (world_of 2 2 [[1; 1]; [1; 1]]))) 1 (-1) = false ∧
  read2 (_model (this (world_of 2 2 [[1; 1]; [1; 1]]))) 1 (-1) = Ok JUndefined ∧
  aliveNeighbours (this (world_of 2 2 [[1; 1]; [1; 1]])) 0 0 = Ok JNaN ∧
  live_neighbours (_model (this (world_of 2 2 [[1; 1]; [1; 1]]))) 0 0 = 3 ∧
  conway true 3 = true ∧
  _next (world_of 2 2 [[1; 1]; [1; 1]]) = Ok (world_of 2 2 [[0; 0]; [0; 0]]).
Proof. repeat split; reflexivity. Qed.

(** C6 (the code departs from it): a block in the top left corner of a
    4 by 4 grid is not a still life; after one call of [_next] only its
    interior cell [(1, 1)] is left. *)
Theorem block_at_corner_not_still :
  _next (world_of 4 4 [[1; 1; 0; 0]; [1; 1; 0; 0]; [0; 0; 0; 0]; [0; 0; 0; 0]]) =
    Ok (world_of 4 4 [[0; 0; 0; 0]; [0; 1; 0; 0]; [0; 0; 0; 0]; [0; 0; 0; 0]]) ∧
  step (world_of 4 4 [[1; 1; 0; 0]; [1; 1; 0; 0]; [0; 0; 0; 0]; [0; 0; 0; 0]]) <>
    world_of 4 4 [[1; 1; 0; 0]; [1; 1; 0; 0]; [0; 0; 0; 0]; [0; 0; 0; 0]].
Proof. split; [reflexivity|discriminate]. Qed.

(** In a grid too small for that margin the triple does not oscillate: in a
    3 by 3 grid its two end cells lie on the boundary and only the centre is
    left after one call. *)
Example blinker_without_margin_decays :
  _next (world_of 3 3 [[0; 1; 0]; [0; 1; 0]; [0; 1; 0]]) =
    Ok (world_of 3 3 [[0; 0; 0]; [0; 1; 0]; [0; 0; 0]]).
Proof. reflexivity. Qed.

(** ** [_render] *)

Lemma foldM_returns {S A} (f : S -> A -> result S) (l : list A) :
  (forall s a, a ∈ l -> exists s', f s a = Ok s') ->
  forall s, exists s', foldM f s l = Ok s'.
Proof.
  induction l as [|a l IH]; intros Hf s; cbn [foldM].
  - eexists. reflexivity.
  - destruct (Hf s a) as [s1 Hs1]; [left|]. rewrite Hs1. cbn [mbind result_bind].
    apply IH. intros s2 b Hb. apply Hf. right. exact Hb.
Qed.

Lemma render_cell_cell g (n k : nat) v c :
  cell (_model g) n k = Some v ->
  render_cell g n c k =
  Ok (fill (rect (Z.of_nat n * CELL_SIZE_IN_PIXELS) (Z.of_nat k * CELL_SIZE_IN_PIXELS)
                 CELL_SIZE_IN_PIXELS CELL_SIZE_IN_PIXELS
                 (set_fillStyle (cell_colour v) (beginPath c)))).
Proof.
  intros Hv. unfold render_cell. rewrite (read2_cell _ _ _ _ Hv). reflexivity.
Qed.

Lemma render_column_returns g (n : nat) c :
  (n < length (_model g))%nat -> exists c', render_column g c n = Ok c'.
Proof.
  intros Hn. unfold render_column.
  destruct (lookup_lt_is_Some_2 (_model g) n Hn) as [col Hcol]. rewrite Hcol.
  apply foldM_returns. intros s k Hk.
  apply elem_of_seq in Hk.
  destruct (lookup_lt_is_Some_2 col k) as [v Hv]; [lia|].
  eexists. apply render_cell_cell. unfold cell. rewrite Hcol. exact Hv.
Qed.

(** The pixels one cell paints: the square of 8 by 8 pixels at
    [(8 n, 8 k)], and nothing else. *)
Lemma render_cell_pixels (n k : nat) v c x y :
  pixels (fill (rect (Z.of_nat n * CELL_SIZE_IN_PIXELS)
                     (Z.of_nat k * CELL_SIZE_IN_PIXELS)
                     CELL_SIZE_IN_PIXELS CELL_SIZE_IN_PIXELS
                     (set_fillStyle (cell_colour v) (beginPath c)))) x y =
  if (x / CELL_SIZE_IN_PIXELS =? Z.of_nat n) && (y / CELL_SIZE_IN_PIXELS =? Z.of_nat k)
  then Some (cell_colour v) else pixels c x y.
Proof.
  unfold fill, rect, set_fillStyle, beginPath, in_rect, CELL_SIZE_IN_PIXELS.
  cbn [pixels path fillStyle app existsb rect_x rect_y rect_w rect_h].
  rewrite orb_false_r.
  assert (Hx : 8 * (x / 8) <= x < 8 * (x / 8) + 8).
  { pose proof (Z.div_mod x 8). pose proof (Z.mod_pos_bound x 8). lia. }
  assert (Hy : 8 * (y / 8) <= y < 8 * (y / 8) + 8).
  { pose proof (Z.div_mod y 8). pose proof (Z.mod_pos_bound y 8). lia. }
  generalize dependent (x / 8). generalize dependent (y / 8). intros cy Hy cx Hx.
  destruct (Z.eqb_spec cx (Z.of_nat n)), (Z.eqb_spec cy (Z.of_nat k)),
    (Z.leb_spec (Z.of_nat n * 8) x), (Z.ltb_spec x (Z.of_nat n * 8 + 8)),
    (Z.leb_spec (Z.of_nat k * 8) y), (Z.ltb_spec y (Z.of_nat k * 8 + 8));
    cbn [andb]; try reflexivity; lia.
Qed.

Section RenderLoops.
Variable g : GameOfLife.
Variables W H : nat.
Hypothesis model_dims : has_dims W H (_model g).
Variable c0 : Canvas.

Lemma render_cell_painted (n k : nat) c :
  (n < W)%nat -> (k < H)%nat -> painted g H c0 n k c ->
  exists c', render_cell g n c k = Ok c' ∧ painted g H c0 n (S k) c'.
Proof.
  intros Hn Hk Hp.
  destruct (has_dims_cell W H (_model g) n k model_dims Hn Hk) as [v Hv].
  rewrite (render_cell_cell g n k v c Hv). eexists. split; [reflexivity|].
  intros x y. rewrite render_cell_pixels, (Hp x y).
  unfold CELL_SIZE_IN_PIXELS.
  assert (Hx : 8 * (x / 8) <= x < 8 * (x / 8) + 8).
  { pose proof (Z.div_mod x 8). pose proof (Z.mod_pos_bound x 8). lia. }
  assert (Hy : 8 * (y / 8) <= y < 8 * (y / 8) + 8).
  { pose proof (Z.div_mod y 8). pose proof (Z.mod_pos_bound y 8). lia. }
  destruct (Z.eqb_spec (x / 8) (Z.of_nat n)) as [Hcx|Hcx],
    (Z.eqb_spec (y / 8) (Z.of_nat k)) as [Hcy|Hcy]; cbn [andb].
  - rewrite Hcx, Hcy, (is_alive_cell _ _ _ _ Hv). unfold cell_colour.
    destruct (Z.leb_spec 0 x), (Z.leb_spec 0 y), (Z.ltb_spec (Z.of_nat k) (Z.of_nat H)),
      (Z.ltb_spec (Z.of_nat n) (Z.of_nat n)),
      (Z.ltb_spec (Z.of_nat k) (Z.of_nat (S k))); cbn [andb orb];
      try reflexivity; lia.
  - rewrite Hcx.
    destruct (Z.ltb_spec (y / 8) (Z.of_nat k)), (Z.ltb_spec (y / 8) (Z.of_nat (S k)));
      try reflexivity; lia.
  - reflexivity.
  - reflexivity.
Qed.

Lemma render_inner_painted (n : nat) : forall (len k : nat) c,
  (n < W)%nat -> (k + len = H)%nat -> painted g H c0 n k c ->
  exists c', foldM (render_cell g n) c (seq k len) = Ok c' ∧ painted g H c0 n H c'.
Proof.
  induction len as [|len IH]; intros k c Hn Hlen Hp; cbn [seq foldM].
  - exists c. split; [reflexivity|].
    assert (Hk : k = H) by lia. rewrite Hk in Hp. exact Hp.
  - destruct (render_cell_painted n k c Hn ltac:(lia) Hp) as (c1 & -> & Hp1).
    cbn [mbind result_bind]. apply IH; [assumption|lia|assumption].
Qed.

Lemma painted_column_done (n : nat) c :
  painted g H c0 n H c -> painted g H c0 (S n) 0 c.
Proof.
  intros Hp x y. rewrite (Hp x y). unfold CELL_SIZE_IN_PIXELS.
  destruct (Z.leb_spec 0 x), (Z.leb_spec 0 y), (Z.ltb_spec (y / 8) (Z.of_nat H)),
    (Z.ltb_spec (x / 8) (Z.of_nat n)), (Z.ltb_spec (x / 8) (Z.of_nat (S n))),
    (Z.eqb_spec (x / 8) (Z.of_nat n)), (Z.eqb_spec (x / 8) (Z.of_nat (S n))),
    (Z.ltb_spec (y / 8) (Z.of_nat 0));
    cbn [andb orb]; try reflexivity; try lia.
  pose proof (Z.div_pos y 8). lia.
Qed.

Lemma render_column_painted (n : nat) c :
  (n < W)%nat -> painted g H c0 n 0 c ->
  exists c', render_column g c n = Ok c' ∧ painted g H c0 (S n) 0 c'.
Proof.
  intros Hn Hp. unfold render_column.
  destruct (has_dims_column W H (_model g) n model_dims Hn) as (col & -> & Hlen).
  destruct (render_inner_painted n (length col) 0 c Hn ltac:(simpl; exact Hlen) Hp)
    as (c' & -> & Hp').
  exists c'. split; [reflexivity|]. apply painted_column_done. exact Hp'.
Qed.

Lemma render_outer_painted : forall (len n : nat) c,
  (n + len = W)%nat -> painted g H c0 n 0 c ->
  exists c', foldM (render_column g) c (seq n len) = Ok c' ∧ painted g H c0 W 0 c'.
Proof.
  induction len as [|len IH]; intros n c Hlen Hp; cbn [seq foldM].
  - exists c. split; [reflexivity|].
    assert (Hn : n = W) by lia. rewrite Hn in Hp. exact Hp.
  - destruct (render_column_painted n c ltac:(lia) Hp) as (c1 & -> & Hp1).
    cbn [mbind result_bind]. apply IH; [lia|assumption].
Qed.

Lemma painted_start : painted g H c0 0 0 c0.
Proof.
  intros x y. unfold CELL_SIZE_IN_PIXELS.
  destruct (Z.leb_spec 0 x), (Z.leb_spec 0 y); cbn [andb]; try reflexivity.
  destruct (Z.ltb_spec (x / 8) (Z.of_nat 0)), (Z.ltb_spec (y / 8) (Z.of_nat 0));
    rewrite ?andb_false_r, ?andb_true_r; cbn [andb orb];
    try reflexivity; pose proof (Z.div_pos x 8); pose proof (Z.div_pos y 8); lia.
Qed.
End RenderLoops.

Lemma _render_returns (g : GameOfLife) (c : Canvas) :
  exists c', _render g c = Ok c'.
Proof.
  unfold _render. apply foldM_returns. intros s n Hn.
  apply elem_of_seq in Hn. apply render_column_returns. lia.
Qed.

Lemma render_painted g W H c :
  has_dims W H (_model g) ->
  exists c', _render g c = Ok c' ∧ painted g H c W 0 c'.
Proof.
  intros Hd. unfold _render. rewrite (proj1 Hd).
  apply (render_outer_painted g W H Hd c W 0%nat c); [lia|apply painted_start].
Qed.

Lemma _render_shows (g : GameOfLife) (W H : nat) (c : Canvas) :
  has_dims W H (_model g) ->
  exists c', _render g c = Ok c' ∧ shows c' (_model g) W H ∧
    forall x y : Z,
      ~ (0 <= x < Z.of_nat W * CELL_SIZE_IN_PIXELS ∧
         0 <= y < Z.of_nat H * CELL_SIZE_IN_PIXELS) ->
      pixels c' x y = pixels c x y.
Proof.
  intros Hd. destruct (render_painted g W H c Hd) as (c' & Hr & Hp).
  exists c'. split; [exact Hr|].
  assert (Hdiv : forall x, 8 * (x / 8) <= x < 8 * (x / 8) + 8).
  { intros x. pose proof (Z.div_mod x 8). pose proof (Z.mod_pos_bound x 8). lia. }
  split.
  - intros x y Hx Hy. rewrite (Hp x y). unfold CELL_SIZE_IN_PIXELS in *.
    pose proof (Hdiv x). pose proof (Hdiv y).
    destruct (Z.leb_spec 0 x), (Z.leb_spec 0 y), (Z.ltb_spec (y / 8) (Z.of_nat H)),
      (Z.ltb_spec (x / 8) (Z.of_nat W)); cbn [andb orb]; try reflexivity; lia.
  - intros x y Hout. rewrite (Hp x y). unfold CELL_SIZE_IN_PIXELS in *.
    pose proof (Hdiv x). pose proof (Hdiv y).
    destruct (Z.leb_spec 0 x), (Z.leb_spec 0 y), (Z.ltb_spec (y / 8) (Z.of_nat H)),
      (Z.ltb_spec (x / 8) (Z.of_nat W)), (Z.eqb_spec (x / 8) (Z.of_nat W)),
      (Z.ltb_spec (y / 8) (Z.of_nat 0));
      cbn [andb orb]; try reflexivity; lia.
Qed.

(** X12: [_render] returns on every model, rectangular or not, and whatever
    its cells hold: the loops are bounded by the lengths of the arrays they
    read, so no read leaves an array. *)
Theorem render_never_throws (g : GameOfLife) (c : Canvas) :
  exists c', _render g c = Ok c'.
Proof. apply _render_returns. Qed.

(** X11: after [_render] the canvas shows the grid: the pixel [(x, y)] of
    the grid area has the colour of the cell [(x / 8, y / 8)], green when
    alive and white when dead, and no pixel outside that area is touched. *)
Theorem render_shows_grid (g : GameOfLife) (W H : nat) (c : Canvas) :
  has_dims W H (_model g) ->
  exists c', _render g c = Ok c' ∧ shows c' (_model g) W H ∧
    forall x y : Z,
      ~ (0 <= x < Z.of_nat W * CELL_SIZE_IN_PIXELS ∧
         0 <= y < Z.of_nat H * CELL_SIZE_IN_PIXELS) ->
      pixels c' x y = pixels c x y.
Proof. apply _render_shows. Qed.

Lemma render_shows_grid_witness :
  exists c', _render (this (world_of 2 2 [[1; 0]; [0; 1]])) blank_canvas = Ok c' ∧
    shows c' (_model (this (world_of 2 2 [[1; 0]; [0; 1]]))) 2 2 ∧
    forall x y : Z,
      ~ (0 <= x < Z.of_nat 2 * CELL_SIZE_IN_PIXELS ∧
         0 <= y < Z.of_nat 2 * CELL_SIZE_IN_PIXELS) ->
      pixels c' x y = pixels blank_canvas x y.
Proof.
  apply (render_shows_grid (this (world_of 2 2 [[1; 0]; [0; 1]])) 2 2 blank_canvas).
  split; [reflexivity|]. repeat constructor.
Defined.

(** ** The page: timers and display *)

(** [restart_page] spelled out: it always returns. *)
Lemma restart_page_unfold (p : Page) :
  exists c1 win1,
    _render (this (restart (engine p))) (canvas p) = Ok c1 ∧
    win1 = match _cycle p with
           | Some handle =>
               if handle =? 0 then window p else clearInterval handle (window p)
           | None => window p
           end ∧
    restart_page p =
    Ok (mkPage (restart (engine p)) (Some (next_handle win1)) c1
          (mkWindow (intervals win1 ++
                       [(next_handle win1,
                         interval (_options (this (restart (engine p)))))])
                    (next_handle win1 + 1))).
Proof.
  destruct (_render_returns (this (restart (engine p))) (canvas p)) as [c1 Hc1].
  exists c1. eexists. split; [exact Hc1|]. split; [reflexivity|].
  unfold restart_page. rewrite Hc1. reflexivity.
Qed.

Lemma restart_page_returns (p : Page) : exists p', restart_page p = Ok p'.
Proof.
  destruct (restart_page_unfold p) as (c1 & win1 & _ & _ & ->). eexists. reflexivity.
Qed.

Lemma tick_unfold (p : Page) :
  (_next (engine p) = Throw TypeError ∧ tick p = p) ∨
  exists w1 c1,
    _next (engine p) = Ok w1 ∧ _render (this w1) (canvas p) = Ok c1 ∧
    tick p = mkPage w1 (_cycle p) c1 (window p).
Proof.
  unfold tick, _next_page. destruct (_next (engine p)) as [w1|[]] eqn:Hn.
  - right. destruct (_render_returns (this w1) (canvas p)) as [c1 Hc1].
    exists w1, c1. cbn [mbind result_bind]. rewrite Hc1. auto.
  - left. auto.
Qed.

Lemma page_perform_engine (p : Page) (op : page_operation) :
  engine (page_perform p op) = perform (engine p) (engine_operation op).
Proof.
  destruct op; cbn [page_perform engine_operation perform].
  - destruct (restart_page_unfold p) as (c1 & win1 & _ & _ & ->). reflexivity.
  - unfold step. destruct (tick_unfold p) as [[-> ->] | (w1 & c1 & -> & _ & ->)];
      reflexivity.
Qed.

(** The engine of a page after a sequence of restarts and interval
    callbacks is the engine after the same sequence of [restart] and
    [_next] calls: [_render] always returns, and what it returns is a
    canvas. *)
Lemma page_run_engine (ops : list page_operation) (p : Page) :
  engine (page_run ops p) = run (map engine_operation ops) (engine p).
Proof.
  unfold page_run, run. revert p.
  induction ops as [|op ops IH]; intros p; cbn [foldl map]; [reflexivity|].
  rewrite IH, page_perform_engine. reflexivity.
Qed.

Lemma restart_page_in_sync (p : Page) :
  exists p', restart_page p = Ok p' ∧ in_sync p'.
Proof.
  destruct (restart_page_unfold p) as (c1 & win1 & Hc1 & _ & ->).
  eexists. split; [reflexivity|]. unfold in_sync. cbn [engine canvas].
  split; [apply restart_wf_dims|].
  destruct (_render_shows (this (restart (engine p))) _ _ (canvas p)
              (restart_wf_dims (engine p))) as (c' & Hc' & Hshows & _).
  rewrite Hc1 in Hc'. injection Hc' as <-. exact Hshows.
Qed.

Lemma tick_in_sync (p : Page) : in_sync p -> in_sync (tick p).
Proof.
  intros [Hd Hs].
  destruct (tick_unfold p) as [[_ ->] | (w1 & c1 & Hn & Hc1 & ->)]; [split; assumption|].
  destruct (_next_preserves (engine p) w1 Hd Hn) as (_ & _ & [Hd1 _] & _).
  unfold in_sync. cbn [engine canvas]. split; [exact Hd1|].
  destruct (_render_shows (this w1) _ _ (canvas p) Hd1) as (c' & Hc' & Hshows & _).
  rewrite Hc1 in Hc'. injection Hc' as <-. exact Hshows.
Qed.

Lemma page_perform_in_sync (p : Page) (op : page_operation) :
  in_sync p -> in_sync (page_perform p op).
Proof.
  intros Hs. destruct op; cbn [page_perform].
  - destruct (restart_page_in_sync p) as (p' & -> & Hs'). exact Hs'.
  - apply tick_in_sync, Hs.
Qed.

Lemma page_run_in_sync (ops : list page_operation) : forall p,
  in_sync p -> in_sync (page_run ops p).
Proof.
  unfold page_run. induction ops as [|op ops IH]; intros p Hs; cbn [foldl].
  - exact Hs.
  - apply IH, page_perform_in_sync, Hs.
Qed.

(** X14: the display never lags behind the model: the constructor returns,
    and after any sequence of restarts and interval callbacks, whether or
    not a callback threw, the canvas shows the current model. *)
Theorem page_display_in_sync (options : UserOptions) (g : RNG) (win : Window)
  (ops : list page_operation) :
  exists p0, new_page options g win = Ok p0 ∧ in_sync (page_run ops p0).
Proof.
  unfold new_page.
  match goal with |- context [restart_page ?p] =>
    destruct (restart_page_in_sync p) as (p0 & -> & Hs)
  end.
  exists p0. split; [reflexivity|]. apply page_run_in_sync, Hs.
Qed.

(** *** Timers *)

Lemma filter_all_kept {A} (P : A -> Prop) `{forall x, Decision (P x)} (l : list A) :
  Forall P l -> filter P l = l.
Proof.
  induction 1 as [|x l Hx Hl IH]; [reflexivity|].
  rewrite filter_cons. destruct (decide (P x)); [|contradiction]. f_equal. exact IH.
Qed.

Lemma clearInterval_cycle others handle delay next :
  Forall (fun t : Z * Z => t.1 < handle) others ->
  clearInterval handle (mkWindow (others ++ [(handle, delay)]) next) =
  mkWindow others next.
Proof.
  intros Hall. unfold clearInterval. cbn [intervals next_handle]. f_equal.
  rewrite filter_app, filter_cons, filter_nil. cbn [fst].
  destruct (decide (handle <> handle)) as [Hne|_]; [contradiction|].
  rewrite app_nil_r. apply filter_all_kept.
  eapply Forall_impl; [exact Hall|]. cbn. intros t Ht. lia.
Qed.

Lemma restart_page_one_cycle others delay (p : Page) :
  one_cycle others delay p ->
  exists p', restart_page p = Ok p' ∧ one_cycle others delay p'.
Proof.
  intros (handle & Hc & Hh & Hi & Hall & Hdelay).
  destruct (restart_page_unfold p) as (c1 & win1 & _ & Hwin1 & ->).
  eexists. split; [reflexivity|].
  rewrite Hc in Hwin1. destruct (Z.eqb_spec handle 0) as [|_]; [lia|].
  destruct (window p) as [ivs next] eqn:Hw. cbn [intervals next_handle] in *.
  rewrite Hi, (clearInterval_cycle others handle delay next Hall) in Hwin1.
  subst win1. cbn [intervals next_handle].
  exists next. cbn [_cycle window engine intervals next_handle].
  split; [reflexivity|]. split; [lia|]. split.
  - rewrite restart_options, Hdelay. reflexivity.
  - split; [|rewrite restart_options; exact Hdelay].
    eapply Forall_impl; [exact Hall|]. cbn. intros t Ht. lia.
Qed.

Lemma tick_one_cycle others delay (p : Page) :
  wf_dims (engine p) -> one_cycle others delay p -> one_cycle others delay (tick p).
Proof.
  intros Hd Hone.
  destruct (tick_unfold p) as [[_ ->] | (w1 & c1 & Hn & _ & ->)]; [exact Hone|].
  destruct Hone as (handle & Hc & Hh & Hi & Hall & Hdelay).
  exists handle. cbn [_cycle window engine]. repeat split; try assumption; try lia.
  destruct (_next_preserves (engine p) w1 Hd Hn) as (-> & _). exact Hdelay.
Qed.

Lemma page_run_one_cycle others delay (ops : list page_operation) : forall p,
  in_sync p -> one_cycle others delay p ->
  one_cycle others delay (page_run ops p).
Proof.
  unfold page_run. induction ops as [|op ops IH]; intros p Hs Hone; cbn [foldl].
  - exact Hone.
  - apply IH; [apply page_perform_in_sync, Hs|].
    destruct op; cbn [page_perform].
    + destruct (restart_page_one_cycle others delay p Hone) as (p' & -> & Hone').
      exact Hone'.
    + apply tick_one_cycle; [apply Hs|exact Hone].
Qed.

(** X13: the engine never accumulates timers.  In a window whose other
    timers are [intervals win], after construction and any sequence of
    restarts and interval callbacks the active timers are those other
    timers, untouched, and exactly one more: the engine's cycle, under the
    handle in [_cycle], with the configured interval as its delay. *)
Theorem page_one_timer (options : UserOptions) (g : RNG) (win : Window)
  (ops : list page_operation) :
  wf_window win ->
  exists p0 handle,
    new_page options g win = Ok p0 ∧
    _cycle (page_run ops p0) = Some handle ∧
    intervals (window (page_run ops p0)) =
      intervals win ++ [(handle, js_or_default (user_interval options) 100)].
Proof.
  intros [Hnext Hall]. unfold new_page.
  match goal with |- context [restart_page ?p] =>
    destruct (restart_page_in_sync p) as (p0 & Hp0 & Hs);
    destruct (restart_page_unfold p) as (c1 & win1 & _ & Hwin1 & Hp0')
  end.
  cbn [_cycle window engine] in Hwin1. subst win1.
  rewrite Hp0 in Hp0'. injection Hp0' as Hp0'.
  assert (Hone : one_cycle (intervals win)
                   (js_or_default (user_interval options) 100) p0).
  { subst p0. exists (next_handle win). cbn [_cycle window engine intervals next_handle].
    split; [reflexivity|]. split; [lia|]. split.
    - rewrite restart_options. reflexivity.
    - split; [exact Hall|]. rewrite restart_options. reflexivity. }
  destruct (page_run_one_cycle _ _ ops p0 Hs Hone) as (handle & Hc & _ & Hi & _).
  exists p0, handle. rewrite Hp0. auto.
Qed.

Lemma page_one_timer_witness :
  exists p0 handle,
    new_page (mkUserOptions (Some 3) (Some 3) (Some 50)) rng0
             (mkWindow [(1, 1000)] 2) = Ok p0 ∧
    _cycle (page_run [PageTick; PageRestart; PageTick] p0) = Some handle ∧
    intervals (window (page_run [PageTick; PageRestart; PageTick] p0)) =
      [(1, 1000)] ++ [(handle, 50)].
Proof.
  apply (page_one_timer (mkUserOptions (Some 3) (Some 3) (Some 50)) rng0
           (mkWindow [(1, 1000)] 2) [PageTick; PageRestart; PageTick]).
  split; [cbn; lia|]. repeat constructor.
Defined.

(** ** More on [_next] *)

(** X1: [_next] throws exactly on the grids one column wide with at least
    one row: there it throws a [TypeError] and leaves the engine as it was;
    on every other grid it returns. *)
Theorem _next_returns_iff (w : World) :
  wf_dims w ->
  (width (_options (this w)) = 1 ∧ 1 <= height (_options (this w)) ->
   _next w = Throw TypeError ∧ step w = w) ∧
  (~ (width (_options (this w)) = 1 ∧ 1 <= height (_options (this w))) ->
   exists w', _next w = Ok w').
Proof.
  intros Hd. split.
  - intros [Hw Hh]. pose proof (_next_throws_one_column w Hd Hw Hh) as Ht.
    split; [exact Ht|]. unfold step. rewrite Ht. reflexivity.
  - intros Hnot.
    destruct (_next_when_sums_return w Hd) as (nm & Hnext & _).
    + intros n k Hn Hk. apply aliveNeighbours_returns; try assumption. lia.
    + eexists. exact Hnext.
Qed.

Lemma _next_returns_iff_witness :
  (width (_options (this (world_of 1 2 [[1; 0]]))) = 1 ∧
   1 <= height (_options (this (world_of 1 2 [[1; 0]]))) ->
   _next (world_of 1 2 [[1; 0]]) = Throw TypeError ∧
   step (world_of 1 2 [[1; 0]]) = world_of 1 2 [[1; 0]]) ∧
  (~ (width (_options (this (world_of 1 2 [[1; 0]]))) = 1 ∧
      1 <= height (_options (this (world_of 1 2 [[1; 0]])))) ->
   exists w', _next (world_of 1 2 [[1; 0]]) = Ok w').
Proof.
  apply (_next_returns_iff (world_of 1 2 [[1; 0]])). concrete_wf.
Defined.

(** X2: whatever the cells of the model hold, numbers other than 0 and 1,
    [NaN] or [undefined], a call of [_next] on a grid that is not one
    column wide returns a grid of the same dimensions whose every cell is
    0 or 1, with the options and the random source untouched. *)
Theorem _next_normalises (w : World) :
  wf_dims w -> width (_options (this w)) <> 1 ->
  exists w', _next w = Ok w' ∧ wf w' ∧
    _options (this w') = _options (this w) ∧ rng w' = rng w.
Proof.
  intros Hd Hw. destruct (_next_returns w Hd Hw) as (nm & Hnext & _).
  eexists. split; [exact Hnext|].
  destruct (_next_preserves w _ Hd Hnext) as (Ho & Hr & Hwf & _). auto.
Qed.

Lemma _next_normalises_witness :
  exists w',
    _next (mkWorld (mkGameOfLife (mkOptions 3 3 100)
             [[JNum 7; JNaN; JNum 1]; [JUndefined; JNum (-2); JNum 1];
              [JNum 1; JNum 1; JNum 0]]) rng0) = Ok w' ∧
    wf w' ∧ _options (this w') = mkOptions 3 3 100 ∧ rng w' = rng0.
Proof.
  apply (_next_normalises (mkWorld (mkGameOfLife (mkOptions 3 3 100)
             [[JNum 7; JNaN; JNum 1]; [JUndefined; JNum (-2); JNum 1];
              [JNum 1; JNum 1; JNum 0]]) rng0)).
  - concrete_wf.
  - cbn. lia.
Defined.

(** X3: the neighbour sum of a boundary cell, on every grid that is not one
    column wide and whatever its cells hold: [NaN] for the two corners of
    row 0, and [0] for every other boundary cell, the other two corners
    included. *)
Theorem boundary_neighbour_sums (w : World) (n k : nat) :
  wf_dims w -> width (_options (this w)) <> 1 ->
  (n < Z.to_nat (width (_options (this w))))%nat ->
  (k < Z.to_nat (height (_options (this w))))%nat ->
  on_boundary (_options (this w)) (Z.of_nat n) (Z.of_nat k) ->
  aliveNeighbours (this w) n k =
  Ok (if (Z.of_nat k =? 0) &&
         ((Z.of_nat n =? 0) || (Z.of_nat n =? width (_options (this w)) - 1))
      then JNaN else JNum 0).
Proof.
  intros [HW _] Hw Hn Hk Hb. unfold aliveNeighbours.
  destruct (neighbour_reads_boundary (_options (this w)) (Z.of_nat n) (Z.of_nat k))
    as [(Hn0 & Hk0 & ->) | [(Hn1 & Hk0 & Hreads) | Hreads]]; [lia|lia|exact Hb| | |].
  - rewrite sum_reads_top_left by lia. rewrite Hn0, Hk0. reflexivity.
  - rewrite Hreads, sum_reads_top_right by lia. rewrite Hk0.
    destruct (Z.eqb_spec (Z.of_nat n) 0); [lia|].
    destruct (Z.eqb_spec (Z.of_nat n) (width (_options (this w)) - 1)) as [|Hne];
      [reflexivity|].
    exfalso. revert Hreads. unfold neighbour_reads. rewrite Hk0.
    destruct (Z.eqb_spec (Z.of_nat n) 0); [lia|].
    destruct (Z.eqb_spec (Z.of_nat n) (width (_options (this w)) - 1)); [lia|].
    cbn [andb negb].
    destruct (Z.eqb_spec 0 (height (_options (this w)))); discriminate.
  - rewrite Hreads. cbn [sum_reads].
    destruct (Z.eqb_spec (Z.of_nat k) 0) as [Hk0|]; [|reflexivity].
    destruct (Z.eqb_spec (Z.of_nat n) 0) as [Hn0|].
    + exfalso. revert Hreads. rewrite Hn0, Hk0, neighbour_reads_top_left.
      discriminate.
    + destruct (Z.eqb_spec (Z.of_nat n) (width (_options (this w)) - 1)) as [He|];
        [|reflexivity].
      exfalso. revert Hreads. unfold neighbour_reads. rewrite Hk0.
      destruct (Z.eqb_spec (Z.of_nat n) 0); [lia|].
      destruct (Z.eqb_spec (Z.of_nat n) (width (_options (this w)) - 1)); [|lia].
      discriminate.
Qed.

Lemma boundary_neighbour_sums_witness :
  aliveNeighbours (this (world_of 3 3 [[1; 1; 1]; [1; 1; 1]; [1; 1; 1]])) 2 2 =
  Ok (if (Z.of_nat 2 =? 0) &&
         ((Z.of_nat 2 =? 0) ||
          (Z.of_nat 2 =?
           width (_options (this (world_of 3 3 [[1; 1; 1]; [1; 1; 1]; [1; 1; 1]]))) - 1))
      then JNaN else JNum 0).
Proof.
  apply (boundary_neighbour_sums (world_of 3 3 [[1; 1; 1]; [1; 1; 1]; [1; 1; 1]]) 2 2).
  - concrete_wf.
  - cbn. lia.
  - cbn. lia.
  - cbn. lia.
  - right. right. left. reflexivity.
Defined.

(** X4: inside the loops of [_next], where [k] is less than the height, the
    branches "Bottom right corner" and "Bottom left corner" never fire:
    they test [k === height].  The reads are never those of either
    branch. *)
Theorem bottom_corner_branches_never_fire (o : Options) (n k : Z) :
  0 <= k < height o ->
  neighbour_reads o n k <> [(n - 1, k - 1); (n, k - 1); (n - 1, k)] ∧
  neighbour_reads o n k <> [(n, k - 1); (n + 1, k - 1); (n + 1, k)].
Proof.
  intros Hk. unfold neighbour_reads.
  destruct (Z.eqb_spec n 0), (Z.eqb_spec k 0), (Z.eqb_spec n (width o - 1)),
    (Z.eqb_spec k (height o)), (Z.ltb_spec n (width o - 1)),
    (Z.ltb_spec k (height o - 1)); cbn [andb negb]; try lia;
    split; intros Heq; try discriminate Heq; injection Heq; intros; lia.
Qed.

Lemma bottom_corner_branches_never_fire_witness :
  neighbour_reads (mkOptions 3 3 100) 2 2 <> [(2 - 1, 2 - 1); (2, 2 - 1); (2 - 1, 2)] ∧
  neighbour_reads (mkOptions 3 3 100) 2 2 <> [(2, 2 - 1); (2 + 1, 2 - 1); (2 + 1, 2)].
Proof.
  apply (bottom_corner_branches_never_fire (mkOptions 3 3 100) 2 2). cbn. lia.
Defined.

(** X6: [_next] in closed form.  On every grid that is not one column wide
    it returns the grid in which a cell is alive exactly when it is strictly
    interior and the standard rule, on its state and the number of its live
    Moore neighbours, makes it alive; options and random source are kept. *)
Theorem _next_closed_form (w : World) :
  wf w -> width (_options (this w)) <> 1 ->
  _next w =
  Ok (pattern_world (_options (this w))
        (next_pattern (_options (this w)) (is_alive (_model (this w)))) (rng w)).
Proof.
  intros Hwf Hw. rewrite (wf_pattern_world w Hwf) at 1.
  apply _next_pattern_world. exact Hw.
Qed.

Lemma _next_closed_form_witness :
  _next (world_of 4 3 [[1; 1; 0]; [1; 1; 1]; [0; 1; 0]; [0; 0; 1]]) =
  Ok (pattern_world (mkOptions 4 3 100)
        (next_pattern (mkOptions 4 3 100)
           (is_alive (_model (this (world_of 4 3 [[1; 1; 0]; [1; 1; 1]; [0; 1; 0]; [0; 0; 1]])))))
        rng0).
Proof.
  apply (_next_closed_form (world_of 4 3 [[1; 1; 0]; [1; 1; 1]; [0; 1; 0]; [0; 0; 1]])).
  - concrete_wf.
  - cbn. lia.
Defined.

(** X7: a grid without a strictly interior cell, at most two columns wide
    or at most two rows high, is wiped by a single call of [_next] (which
    returns unless the grid is one column wide). *)
Theorem grid_without_interior_dies (w : World) :
  wf_dims w -> width (_options (this w)) <> 1 ->
  width (_options (this w)) <= 2 ∨ height (_options (this w)) <= 2 ->
  exists w', _next w = Ok w' ∧ no_live_cell (_model (this w')).
Proof.
  intros Hd Hw Hsmall. destruct (_next_returns w Hd Hw) as (nm & Hnext & Hdn & Hcells).
  eexists. split; [exact Hnext|]. cbn [this _model].
  apply Forall_lookup. intros n col Hcol. apply Forall_lookup. intros k v Hv.
  assert (Hn : (n < Z.to_nat (width (_options (this w))))%nat).
  { destruct Hdn as [<- _]. eapply lookup_lt_Some, Hcol. }
  assert (Hk : (k < Z.to_nat (height (_options (this w))))%nat).
  { rewrite <- (has_dims_lookup _ _ _ _ _ Hdn Hcol). eapply lookup_lt_Some, Hv. }
  specialize (Hcells n k Hn Hk). unfold cell in Hcells.
  rewrite Hcol in Hcells. cbn in Hcells. rewrite Hv in Hcells.
  injection Hcells as ->.
  rewrite (target_boundary w n k Hd Hw Hn Hk); [reflexivity|].
  unfold on_boundary. lia.
Qed.

Lemma grid_without_interior_dies_witness :
  exists w', _next (world_of 2 4 [[1; 1; 1; 1]; [1; 1; 1; 1]]) = Ok w' ∧
    no_live_cell (_model (this w')).
Proof.
  apply (grid_without_interior_dies (world_of 2 4 [[1; 1; 1; 1]; [1; 1; 1; 1]])).
  - concrete_wf.
  - cbn. lia.
  - left. cbn. lia.
Defined.

(** The witness of [block_interior_still_life] (X5): a block in the middle
    of a 4 by 4 grid, after three calls. *)
Lemma block_interior_still_life_witness :
  Nat.iter 3 step (pattern_world (mkOptions 4 4 100) (block 1 1) rng0) =
  pattern_world (mkOptions 4 4 100) (block 1 1) rng0.
Proof.
  apply (block_interior_still_life (mkOptions 4 4 100) rng0 1 1 3); cbn; lia.
Defined.

(** The witness of [reachable_wf] (X8). *)
Lemma reachable_wf_witness :
  exists w,
    new_GameOfLife (mkUserOptions (Some 3) (Some 2) None) rng0 = Ok w ∧
    wf (run [OpNext; OpRestart; OpNext] w).
Proof.
  apply (reachable_wf (mkUserOptions (Some 3) (Some 2) None) rng0
           [OpNext; OpRestart; OpNext]).
  intros i. split; cbn; [discriminate|reflexivity].
Defined.

(** ** The random population *)

Lemma Math_round_first_draw (r : Q) :
  (0 <= r)%Q -> (r < 1)%Q ->
  (Math_round (js_mul r 3) = 3 <->
   ((5 # 2) - (1 # 4503599627370496) <= r * 3)%Q).
Proof.
  destruct r as [[|a|a] d]; unfold Qle, Qlt; cbn [Qnum Qden]; intros H0 H1.
  - split; [intros [=]|]. unfold Qle. cbn. lia.
  - apply (round_double_pos_three (a * 3) (d * 1)). lia.
  - lia.
Qed.

Lemma Math_round_second_draw (r : Q) :
  (0 <= r)%Q -> (r < 1)%Q -> is_double r ->
  (Math_round (js_mul r 1) = 1 <-> (1 # 2 <= r)%Q).
Proof.
  intros H0 H1 Hd. unfold js_mul. rewrite round_double_mul_1, Math_round_iff.
  unfold is_double in Hd. change (inject_Z 1) with 1%Q. split.
  - intros [Hlo _]. lra.
  - intros Hr. split; lra.
Qed.

(** X9: a randomised cell starts alive exactly when three times its first
    draw is at least [5/2 - 2^-52], so that the rounded product is at least
    2.5 and [Math.round] gives 3, and its second draw is at least 1/2;
    otherwise it starts dead.  The first draws that qualify are the doubles
    from 0.8333333333333333 upwards: about one draw in six reaches the
    second stage of the formula, and half of those round up. *)
Theorem generate_cell_alive_iff (g : RNG) :
  unit_draws g -> is_double (draws g (S (cursor g))) ->
  ((generate_cell true g).1 = JNum 1 <->
   ((5 # 2) - (1 # 4503599627370496) <= draws g (cursor g) * 3)%Q ∧
   (1 # 2 <= draws g (S (cursor g)))%Q) ∧
  ((generate_cell true g).1 = JNum 1 ∨ (generate_cell true g).1 = JNum 0).
Proof.
  intros Hg Hdouble. destruct (Hg (cursor g)) as [Ha0 Ha1].
  destruct (Hg (S (cursor g))) as [Hb0 Hb1].
  pose proof (Math_round_first_draw _ Ha0 Ha1) as H3.
  pose proof (Math_round_second_draw _ Hb0 Hb1 Hdouble) as H2.
  unfold generate_cell, Math_random. cbn [fst snd draws cursor].
  destruct (Z.eqb_spec (Math_round (js_mul (draws g (cursor g)) 3)) 3) as [He|Hne];
    cbn [fst snd draws cursor].
  - split.
    + split.
      * intros [= Hr]. split; [apply H3, He|apply H2, Hr].
      * intros [_ Hr]. f_equal. apply H2, Hr.
    + destruct (Math_round_unit _ Hb0 Hb1) as [-> | ->]; [right|left]; reflexivity.
  - split; [|right; reflexivity]. split.
    + intros [=].
    + intros [Hr _]. exfalso. apply Hne, H3, Hr.
Qed.

Lemma generate_cell_alive_iff_witness :
  ((generate_cell true
      (mkRNG (fun i => if Nat.even i then 7505999378950826 # 9007199254740992
                       else 3 # 4)%Q 0)).1 = JNum 1 <->
   ((5 # 2) - (1 # 4503599627370496) <=
    (7505999378950826 # 9007199254740992) * 3)%Q ∧ (1 # 2 <= 3 # 4)%Q) ∧
  ((generate_cell true
      (mkRNG (fun i => if Nat.even i then 7505999378950826 # 9007199254740992
                       else 3 # 4)%Q 0)).1 = JNum 1 ∨
   (generate_cell true
      (mkRNG (fun i => if Nat.even i then 7505999378950826 # 9007199254740992
                       else 3 # 4)%Q 0)).1 = JNum 0).
Proof.
  apply (generate_cell_alive_iff
           (mkRNG (fun i => if Nat.even i then 7505999378950826 # 9007199254740992
                            else 3 # 4)%Q 0)).
  - intros i. cbn [draws]. destruct (Nat.even i); split; unfold Qle, Qlt; cbn; lia.
  - vm_compute. reflexivity.
Defined.

(** The first draw 0.8333333333333333 lies below 5/6, yet three times it
    rounds to 2.5: the second draw is taken and decides. *)
Example generate_cell_below_five_sixths :
  (7505999378950826 # 9007199254740992 < 5 # 6)%Q ∧
  generate_cell true
    (mkRNG (fun i => if Nat.even i then 7505999378950826 # 9007199254740992
                     else 3 # 4)%Q 0) =
  (JNum 1,
   mkRNG (fun i => if Nat.even i then 7505999378950826 # 9007199254740992
                   else 3 # 4)%Q 2).
Proof. split; [reflexivity|]. vm_compute. reflexivity. Qed.

Lemma generate_cell_cursor b g :
  draws (generate_cell b g).2 = draws g ∧
  (cursor g + (if b then 1 else 0) <= cursor (generate_cell b g).2
   <= cursor g + (if b then 2 else 0))%nat.
Proof.
  unfold generate_cell, Math_random. destruct b; [|cbn; split; [reflexivity|lia]].
  destruct (Math_round (js_mul (draws g (cursor g)) 3) =? 3);
    cbn [fst snd draws cursor];
    split; try reflexivity; lia.
Qed.

Lemma generate_inner_cursor b kl : forall g,
  draws (generate_inner b kl g).2 = draws g ∧
  (cursor g + kl * (if b then 1 else 0) <= cursor (generate_inner b kl g).2
   <= cursor g + kl * (if b then 2 else 0))%nat.
Proof.
  induction kl as [|kl IH]; intros g; cbn [generate_inner].
  - cbn. split; [reflexivity|lia].
  - destruct (generate_cell_cursor b g) as [Hd1 Hc1].
    destruct (generate_cell b g) as [c g1]. cbn [fst snd] in *.
    destruct (IH g1) as [Hd2 Hc2].
    destruct (generate_inner b kl g1) as [rest g2]. cbn [fst snd] in *.
    split; [congruence|]. destruct b; lia.
Qed.

Lemma generate_outer_cursor b nl kl : forall g,
  draws (generate_outer b nl kl g).2 = draws g ∧
  (cursor g + nl * kl * (if b then 1 else 0) <= cursor (generate_outer b nl kl g).2
   <= cursor g + nl * kl * (if b then 2 else 0))%nat.
Proof.
  induction nl as [|nl IH]; intros g; cbn [generate_outer].
  - cbn. split; [reflexivity|lia].
  - destruct (generate_inner_cursor b kl g) as [Hd1 Hc1].
    destruct (generate_inner b kl g) as [col g1]. cbn [fst snd] in *.
    destruct (IH g1) as [Hd2 Hc2].
    destruct (generate_outer b nl kl g1) as [rest g2]. cbn [fst snd] in *.
    split; [congruence|]. destruct b; lia.
Qed.

(** X10: [restart] takes at least one and at most two draws per cell from
    the random source, and leaves the sequence of draws itself alone. *)
Theorem restart_draws_consumed (w : World) :
  draws (rng (restart w)) = draws (rng w) ∧
  (cursor (rng w) +
     Z.to_nat (width (_options (this w))) * Z.to_nat (height (_options (this w)))
   <= cursor (rng (restart w))
   <= cursor (rng w) +
      2 * (Z.to_nat (width (_options (this w))) *
           Z.to_nat (height (_options (this w)))))%nat.
Proof.
  pose proof (generate_outer_cursor true
    (Z.to_nat (width (_options (this w)))) (Z.to_nat (height (_options (this w))))
    (rng w)) as [Hd Hc].
  unfold restart, _generateModel.
  destruct (generate_outer _ _ _ _) as [m g]. cbn [fst snd rng] in *.
  split; [exact Hd|]. lia.
Qed.
